(** * svr-info metric scripts: [check_events.py] and [perfmon2perfspect.py]

    A shallow embedding of the two scripts under [scripts/] together with
    the Python built-ins they rely on, and the properties of the scripts
    that the specification states.

    Conventions.
    - A Python [str] is a list of characters; characters are the code
      points below 256 ([ascii]).
    - Python integers are [Z]; [str.find] returns [-1] when nothing is
      found and slices take negative indices, exactly as in Python.
    - A [while] loop is run with a fuel bound; running out of fuel is the
      outcome [OutOfFuel], an exception is the outcome [Raise].
    - A JSON object whose shape is open (the metric entries) is a [dict]:
      an association list in insertion order, as Python dictionaries are.
      The alias table of the translator, which is only ever looked up, is a
      [gmap]. *)

From Stdlib Require Import ZArith List Ascii String Lia DecimalString.
From stdpp Require Import base option list gmap strings.
Import ListNotations.

(* ===================================================================== *)
(** * Python built-ins *)
(* ===================================================================== *)

Module Py.

(** ** Strings *)

Definition str : Type := list ascii.

(** A string literal. *)
Definition lit (s : string) : str := list_ascii_of_string s.

Definition chr_eqb (a b : ascii) : bool := Ascii.eqb a b.

Fixpoint str_eqb (a b : str) : bool :=
  match a, b with
  | [], [] => true
  | x :: a', y :: b' => chr_eqb x y && str_eqb a' b'
  | _, _ => false
  end.

(** [s.startswith(p)] *)
Fixpoint startswith (s p : str) {struct p} : bool :=
  match p with
  | [] => true
  | c :: p' =>
      match s with
      | [] => false
      | d :: s' => chr_eqb d c && startswith s' p'
      end
  end.

(** [s.find(sub)], counting from index [i] for the head of [s]. *)
Fixpoint find_from (s sub : str) (i : Z) : Z :=
  if startswith s sub then i
  else match s with
       | [] => (-1)%Z
       | _ :: s' => find_from s' sub (i + 1)
       end.

Definition find (s sub : str) : Z := find_from s sub 0.

Definition len (s : str) : Z := Z.of_nat (length s).

(** How Python turns a slice bound into a position of [0 .. len]. *)
Definition slice_bound (n i : Z) : Z :=
  if (i <? 0)%Z then Z.max (i + n) 0 else Z.min i n.

(** [s[lo:hi]] *)
Definition slice (s : str) (lo hi : Z) : str :=
  let a := slice_bound (len s) lo in
  let b := slice_bound (len s) hi in
  firstn (Z.to_nat (b - a)) (skipn (Z.to_nat a) s).

(** [s[lo:]] *)
Definition slice_from (s : str) (lo : Z) : str :=
  skipn (Z.to_nat (slice_bound (len s) lo)) s.

(** [s.replace(old, new)] for a non-empty [old]: occurrences are taken
    left to right and do not overlap. [skip] counts the characters of a
    matched occurrence still to be dropped. *)
Fixpoint replace_from (old new : str) (skip : nat) (s : str) : str :=
  match s with
  | [] => []
  | c :: s' =>
      match skip with
      | S n => replace_from old new n s'
      | O =>
          if startswith s old
          then new ++ replace_from old new (length old - 1) s'
          else c :: replace_from old new 0 s'
      end
  end.

(** [s.replace(old, new)]; with an empty [old] Python puts [new] before
    every character and at the end. *)
Definition replace (s old new : str) : str :=
  match old with
  | [] => new ++ flat_map (fun c => c :: new) s
  | _ :: _ => replace_from old new 0 s
  end.

(** [c.isalpha()] for a one-character string: the letters among the code
    points below 256. *)
Definition isalpha (c : ascii) : bool :=
  let n := N_of_ascii c in
  ((65 <=? n) && (n <=? 90) || (97 <=? n) && (n <=? 122)
   || (n =? 170) || (n =? 181) || (n =? 186)
   || (192 <=? n) && (n <=? 214) || (216 <=? n) && (n <=? 246)
   || (248 <=? n) && (n <=? 255))%N.

(** [str(n)] for a length. *)
Definition str_of_nat (n : nat) : str :=
  lit (NilEmpty.string_of_uint (Nat.to_uint n)).

(** ["\n".join(l)] *)
Fixpoint join (sep : str) (l : list str) : str :=
  match l with
  | [] => []
  | [x] => x
  | x :: l' => x ++ sep ++ join sep l'
  end.

(** ** Lists of strings *)

(** [x in l] *)
Fixpoint contains (l : list str) (x : str) : bool :=
  match l with
  | [] => false
  | y :: l' => str_eqb y x || contains l' x
  end.

(** [l.count(x)] *)
Fixpoint count (l : list str) (x : str) : Z :=
  match l with
  | [] => 0%Z
  | y :: l' => ((if str_eqb y x then 1 else 0) + count l' x)%Z
  end.

(** ** Dictionaries with string keys, in insertion order *)

Definition dict (V : Type) : Type := list (str * V).

(** [d.get(k)] *)
Fixpoint dict_get {V} (d : dict V) (k : str) : option V :=
  match d with
  | [] => None
  | (k', v) :: d' => if str_eqb k' k then Some v else dict_get d' k
  end.

(** [d[k] = v]: an existing key keeps its place, a new one goes last. *)
Fixpoint dict_set {V} (d : dict V) (k : str) (v : V) : dict V :=
  match d with
  | [] => [(k, v)]
  | (k', v') :: d' =>
      if str_eqb k' k then (k', v) :: d' else (k', v') :: dict_set d' k v
  end.

(** [d.keys()] *)
Definition keys {V} (d : dict V) : list str := map fst d.

(** ** Outcomes of a computation *)

Inductive exn : Type :=
| KeyError (k : str)
| IndexError
| FileNotFoundError (path : str)
| TypeError
| SystemExit (code : Z).

Inductive outcome (A : Type) : Type :=
| Return (a : A)
| Raise (e : exn)
| OutOfFuel.

Arguments Return {A} a.
Arguments Raise {A} e.
Arguments OutOfFuel {A}.

#[export] Instance outcome_ret : MRet outcome := @Return.

#[export] Instance outcome_bind : MBind outcome := fun A B f m =>
  match m with
  | Return a => f a
  | Raise e => Raise e
  | OutOfFuel => OutOfFuel
  end.

(** [d[k]], which raises [KeyError] on a missing key. *)
Definition getitem {V} (d : dict V) (k : str) : outcome V :=
  match dict_get d k with
  | Some v => Return v
  | None => Raise (KeyError k)
  end.

(** [s[i]], which raises [IndexError] out of range. *)
Definition getchar (s : str) (i : Z) : outcome ascii :=
  let j := if (i <? 0)%Z then (i + len s)%Z else i in
  if (j <? 0)%Z then Raise IndexError
  else match nth_error s (Z.to_nat j) with
       | Some c => Return c
       | None => Raise IndexError
       end.

(** [while cond(s): s = body(s)] *)
Fixpoint while {S : Type} (fuel : nat) (cond : S -> outcome bool)
    (body : S -> outcome S) (s : S) : outcome S :=
  match fuel with
  | O => OutOfFuel
  | Datatypes.S fuel' =>
      b ← cond s;
      if b : bool then body s ≫= while fuel' cond body else Return s
  end.

(** [for x in l: s = body(s, x)] *)
Fixpoint for_each {S A : Type} (l : list A) (body : S -> A -> outcome S)
    (s : S) : outcome S :=
  match l with
  | [] => Return s
  | x :: l' => body s x ≫= for_each l' body
  end.

End Py.

Import Py.

(* ===================================================================== *)
(** * [scripts/check_events.py] *)
(* ===================================================================== *)

Module CheckEvents.

(** The colon test that both the formula scan and [get_event] apply to an
    extracted name:
    [if x.find(":") > 0: x = x[0:x.find(":")]]. *)
Definition strip_modifier (x : str) : str :=
  if (find x (lit ":") >? 0)%Z then slice x 0 (find x (lit ":")) else x.

(** [get_event(line)]; [None] is Python's [None]. *)
Definition get_event (line : str) : option str :=
  if negb (str_eqb line []) && negb (startswith line (lit "#")) then
    if (find line (lit "name=") >=? 0)%Z then
      let x := slice_from line (find line (lit "name=") + 5) in
      let x := slice_from x (find x (lit "'") + 1) in
      let x := slice x 0 (find x (lit "'")) in
      Some (strip_modifier x)
    else
      Some (slice line 0 (-2))
  else
    None.

(** The variables of the bracket scan of one metric. *)
Record scan : Type := Scan {
  formula : str;
  start_bracket : Z;
  used_events : dict Z;
  m_events : list str
}.

(** [used_events[event] = used_events.get(event, 0) + 1] *)
Definition count_event (used : dict Z) (event : str) : dict Z :=
  dict_set used event (default 0%Z (dict_get used event) + 1)%Z.

(** The body of [while start_bracket >= 0]. *)
Definition scan_body (s : scan) : scan :=
  let end_bracket := find (formula s) (lit "]") in
  let event := slice (formula s) (start_bracket s + 1) end_bracket in
  let event := strip_modifier event in
  let used :=
    if negb (startswith event (lit "const_"))
    then count_event (used_events s) event
    else used_events s in
  let formula' := slice_from (formula s) (end_bracket + 1) in
  {| formula := formula';
     start_bracket := find formula' (lit "[");
     used_events := used;
     m_events := m_events s ++ [event] |}.

Definition scan_cond (s : scan) : bool := (start_bracket s >=? 0)%Z.

(** [while start_bracket >= 0: ...] *)
Definition scan_loop (fuel : nat) (s : scan) : outcome scan :=
  while fuel (fun s => Return (scan_cond s)) (fun s => Return (scan_body s)) s.

(** The scan of one expression, from [start_bracket = formula.find("[")]
    to the end of the [while] loop. *)
Definition scan_formula (fuel : nat) (expression : str) (used : dict Z)
    : outcome scan :=
  scan_loop fuel
    {| formula := expression;
       start_bracket := find expression (lit "[");
       used_events := used;
       m_events := [] |}.

(** The body of [for m in metrics]; the state is
    [(metric_list, used_events)]. *)
Definition scan_metric (fuel : nat)
    (st : dict (list str) * dict Z) (m : dict str)
    : outcome (dict (list str) * dict Z) :=
  metric ← getitem m (lit "name");
  expression ← getitem m (lit "expression");
  s ← scan_formula fuel expression (snd st);
  Return (dict_set (fst st) metric (m_events s), used_events s).

(** The body of [for line in f]. *)
Definition line_body (event_list : list str) (line : str) : list str :=
  match get_event line with
  | Some event =>
      if negb (str_eqb event []) && (count event_list event =? 0)%Z
      then event_list ++ [event]
      else event_list
  | None => event_list
  end.

Definition declared_events (lines : list str) : list str :=
  fold_left line_body lines [].

Definition missing_of (used : dict Z) (event_list : list str) : list str :=
  List.filter (fun x => negb (contains event_list x)) (keys used).

Definition unused_of (used : dict Z) (event_list : list str) : list str :=
  List.filter (fun x => negb (contains (keys used) x)) event_list.

(** The script body on the two loaded documents: [metrics] is the JSON
    array of the metrics file, [lines] are the lines of the events file as
    file iteration yields them (each with its line terminator, which only
    the last line may lack). The result is
    [(missing_events, unused_events)]. *)
Definition check (fuel : nat) (metrics : list (dict str)) (lines : list str)
    : outcome (list str * list str) :=
  st ← for_each metrics (scan_metric fuel) ([], []);
  let event_list := declared_events lines in
  Return (missing_of (snd st) event_list, unused_of (snd st) event_list).

(** What the script prints for a result of [check]. *)
Definition report (r : list str * list str) : list str :=
  [ lit "Missing events: " ++ join (lit (String "010" EmptyString)) (fst r);
    lit "Unused events: " ++ join (lit (String "010" EmptyString)) (snd r) ].

(** The pairing the specification describes for one scanning step: the
    first "[" with the next "]" after it; the token is what lies strictly
    between, and the scan resumes after that "]". *)
Definition paired_step (formula : str) : str * str :=
  let i := find formula (lit "[") in
  let after := slice_from formula (i + 1) in
  let j := find after (lit "]") in
  (slice after 0 j, slice_from after (j + 1)).

End CheckEvents.

(* ===================================================================== *)
(** * [scripts/perfmon2perfspect.py] *)
(* ===================================================================== *)

Module Perfmon2Perfspect.

(** ** Documents and the outside world *)

(** An entry of [Events] or of [Constants]. *)
Record AliasEntry : Type := { Alias : str; Name : str }.

Record PerfmonMetric : Type := {
  LegacyName : str;
  Events : list AliasEntry;
  Constants : list AliasEntry;
  Formula : str
}.

(** The top-level object of a perfmon metrics file; [Metrics] is [None]
    when the key is absent (or null), which is what
    [mf.get("Metrics") is None] tests. *)
Record PerfmonDoc : Type := { Metrics : option (list PerfmonMetric) }.

(** What a file holds: a perfmon document or a JSON array of metric
    objects with string fields. *)
Inductive document : Type :=
| PerfmonFile (d : PerfmonDoc)
| MetricsFile (l : list (dict str)).

Record world : Type := World {
  stdout : list str;
  fs : gmap str document
}.

(** [print(line)] *)
Definition print (line : str) (w : world) : world :=
  {| stdout := stdout w ++ [line]; fs := fs w |}.

(** [json.load] of a perfmon file. A missing file raises; a document of
    the other shape is reported as [TypeError]. *)
Definition load_perfmon (path : str) (w : world) : outcome PerfmonDoc :=
  match fs w !! path with
  | None => Raise (FileNotFoundError path)
  | Some (PerfmonFile d) => Return d
  | Some (MetricsFile _) => Raise TypeError
  end.

(** [json.load] of a metrics file. *)
Definition load_metrics (path : str) (w : world)
    : outcome (list (dict str)) :=
  match fs w !! path with
  | None => Raise (FileNotFoundError path)
  | Some (MetricsFile l) => Return l
  | Some (PerfmonFile _) => Raise TypeError
  end.

(** [json.dumps(result, indent=4)] written to [path], replacing what was
    there. *)
Definition dump_metrics (path : str) (result : list (dict str)) (w : world)
    : world :=
  {| stdout := stdout w; fs := <[path := MetricsFile result]> (fs w) |}.

(** ** Operation A: translation *)

Definition varMap : dict str := [
  (lit "[INST_RETIRED.ANY]", lit "[instructions]");
  (lit "[CPU_CLK_UNHALTED.THREAD]", lit "[cpu-cycles]");
  (lit "[CPU_CLK_UNHALTED.REF]", lit "[ref-cycles]");
  (lit "[CPU_CLK_UNHALTED.REF_TSC]", lit "[ref-cycles]");
  (lit "DURATIONTIMEINSECONDS", lit "1");
  (lit "[DURATIONTIMEINMILLISECONDS]", lit "1000");
  (lit "[TOPDOWN.SLOTS:perf_metrics]", lit "[TOPDOWN.SLOTS]");
  (lit "[OFFCORE_REQUESTS_OUTSTANDING.ALL_DATA_RD:c4]",
   lit "[OFFCORE_REQUESTS_OUTSTANDING.DATA_RD:c4]")
].

(** [c.isalpha() or c == "_"] *)
Definition is_ident (c : ascii) : bool := isalpha c || chr_eqb c "_"%char.

(** [for e in entries: vars[e["Alias"]] = e["Name"]] *)
Definition bind_aliases (entries : list AliasEntry) (vars : gmap str str)
    : gmap str str :=
  fold_left (fun vars e => <[Alias e := Name e]> vars) entries vars.

(** [vars.clear()] *)
Definition clear (vars : gmap str str) : gmap str str := ∅.

(** The inner loop on [(x, k)]:
    [while k < len(formula) and (formula[k].isalpha() or formula[k] == "_")]. *)
Definition run_cond (formula : str) (s : str * Z) : outcome bool :=
  if (snd s <? len formula)%Z
  then c ← getchar formula (snd s); Return (is_ident c)
  else Return false.

Definition run_body (formula : str) (s : str * Z) : outcome (str * Z) :=
  c ← getchar formula (snd s);
  Return (fst s ++ [c], (snd s + 1)%Z).

(** The outer loop on [(i, newFormula)]: [while i < len(formula)]. *)
Definition rewrite_cond (formula : str) (s : Z * str) : outcome bool :=
  Return (fst s <? len formula)%Z.

Definition rewrite_body (fuel : nat) (vars : gmap str str) (formula : str)
    (s : Z * str) : outcome (Z * str) :=
  let '(i, newFormula) := s in
  c ← getchar formula i;
  if is_ident c then
    '(x, k) ← while fuel (run_cond formula) (run_body formula)
                ([c], (i + 1)%Z);
    let newFormula :=
      match vars !! x with
      | Some name => newFormula ++ lit "[" ++ name ++ lit "]"
      | None => newFormula ++ slice formula i k
      end in
    Return (k, newFormula)
  else
    Return ((i + 1)%Z, newFormula ++ [c]).

(** From the empty [newFormula] to the end of [while i < len(formula)]. *)
Definition rewrite_formula (fuel : nat) (vars : gmap str str) (formula : str)
    : outcome str :=
  s ← while fuel (rewrite_cond formula) (rewrite_body fuel vars formula)
        (0%Z, []);
  Return (snd s).

(** [for v in varMap: newFormula = newFormula.replace(v, varMap[v])] *)
Definition apply_varMap (newFormula : str) : outcome str :=
  for_each (keys varMap)
    (fun newFormula v =>
       r ← getitem varMap v; Return (replace newFormula v r))
    newFormula.

(** The body of [for m in mf["Metrics"]]; the state is [(vars, result)],
    [vars] being the one table the function creates before the loop. *)
Definition translate_metric (fuel : nat)
    (st : gmap str str * list (dict str)) (m : PerfmonMetric)
    : outcome (gmap str str * list (dict str)) :=
  let vars := clear (fst st) in
  let metric : dict str := [] in
  let metricName := LegacyName m in
  let vars := bind_aliases (Events m) vars in
  let vars := bind_aliases (Constants m) vars in
  newFormula ← rewrite_formula fuel vars (Formula m);
  let metric := dict_set metric (lit "name") metricName in
  newFormula ← apply_varMap newFormula;
  let metric := dict_set metric (lit "expression") newFormula in
  Return (vars, snd st ++ [metric]).

(** [translate_perfmon_metrics_to_perfspect(inFile, outFile)] *)
Definition translate_perfmon_metrics_to_perfspect (fuel : nat)
    (inFile outFile : str) (w : world) : outcome world :=
  mf ← load_perfmon inFile w;
  match Metrics mf with
  | None =>
      Return (print (lit "ERROR: No metrics were found in " ++ inFile) w)
  | Some metrics =>
      let w := print (lit "Metrics in " ++ inFile ++ lit ": "
                        ++ str_of_nat (length metrics)) w in
      st ← for_each metrics (translate_metric fuel) (∅, []);
      let result := snd st in
      let w := print (lit "Generated metrics: "
                        ++ str_of_nat (length result)) w in
      Return (dump_metrics outFile result w)
  end.

(** ** Operation B: reconciliation *)

(** [find_metric(mList, mName)]; [None] is Python's [None]. *)
Fixpoint find_metric (mList : list (dict str)) (mName : str)
    : outcome (option (dict str)) :=
  match mList with
  | [] => Return None
  | m :: mList' =>
      name ← getitem m (lit "name");
      if str_eqb name mName then Return (Some m)
      else find_metric mList' mName
  end.

(** The body of [for m in usedMetrics]; the state is [result]. *)
Definition used_body (allMetrics : list (dict str))
    (result : list (dict str)) (m : dict str) : outcome (list (dict str)) :=
  name ← getitem m (lit "name");
  found ← find_metric allMetrics name;
  match found with
  | Some found => Return (result ++ [found])
  | None => Return (result ++ [dict_set m (lit "origin") (lit "perfspect")])
  end.

(** The loop of [generate_final_metrics_list] on the two loaded lists. *)
Definition reconcile (allMetrics usedMetrics : list (dict str))
    : outcome (list (dict str)) :=
  for_each usedMetrics (used_body allMetrics) [].

(** [generate_final_metrics_list(allFile, usedFile, filteredFile)] *)
Definition generate_final_metrics_list (allFile usedFile filteredFile : str)
    (w : world) : outcome world :=
  allMetrics ← load_metrics allFile w;
  usedMetrics ← load_metrics usedFile w;
  result ← reconcile allMetrics usedMetrics;
  let w := print (lit "PerfSpect metrics: " ++ str_of_nat (length result)) w in
  Return (dump_metrics filteredFile result w).

(** The script body; [argv] is [sys.argv]. *)
Definition main (fuel : nat) (argv : list str) (w : world) : outcome world :=
  if (length argv <? 3)%nat then Raise (SystemExit 1)
  else
    match argv with
    | _ :: a1 :: a2 :: rest =>
        w ← translate_perfmon_metrics_to_perfspect fuel a1 a2 w;
        match rest with
        | [a3; a4] => generate_final_metrics_list a2 a3 a4 w
        | _ => Return w
        end
    | _ => Raise IndexError
    end.

(** ** The translation as the specification words it *)

(** A formula is cut into identifier tokens, the maximal runs of
    alphabetic characters and underscores, and single other characters. *)
Inductive token : Type :=
| Ident (run : str)
| Other (c : ascii).

Fixpoint tokens (formula : str) : list token :=
  match formula with
  | [] => []
  | c :: rest =>
      if is_ident c then
        match tokens rest with
        | Ident run :: ts => Ident (c :: run) :: ts
        | ts => Ident [c] :: ts
        end
      else Other c :: tokens rest
  end.

(** An identifier found in the alias table becomes its name in square
    brackets; anything else is copied. *)
Definition emit (table : gmap str str) (t : token) : str :=
  match t with
  | Ident run =>
      match table !! run with
      | Some name => lit "[" ++ name ++ lit "]"
      | None => run
      end
  | Other c => [c]
  end.

Definition rewrite_spec (table : gmap str str) (formula : str) : str :=
  concat (map (emit table) (tokens formula)).

(** The fixed table of literal replacements, in the listed order. *)
Definition replacements : list (str * str) := [
  (lit "[INST_RETIRED.ANY]", lit "[instructions]");
  (lit "[CPU_CLK_UNHALTED.THREAD]", lit "[cpu-cycles]");
  (lit "[CPU_CLK_UNHALTED.REF]", lit "[ref-cycles]");
  (lit "[CPU_CLK_UNHALTED.REF_TSC]", lit "[ref-cycles]");
  (lit "DURATIONTIMEINSECONDS", lit "1");
  (lit "[DURATIONTIMEINMILLISECONDS]", lit "1000");
  (lit "[TOPDOWN.SLOTS:perf_metrics]", lit "[TOPDOWN.SLOTS]");
  (lit "[OFFCORE_REQUESTS_OUTSTANDING.ALL_DATA_RD:c4]",
   lit "[OFFCORE_REQUESTS_OUTSTANDING.DATA_RD:c4]")
].

(** Each replacement scans the string the previous ones left. *)
Definition apply_replacements (formula : str) : str :=
  fold_left (fun cur r => replace cur (fst r) (snd r)) replacements formula.

(** The alias table of one metric: its [Events] entries, then its
    [Constants] entries, each alias mapped to its name. *)
Definition alias_table (m : PerfmonMetric) : gmap str str :=
  bind_aliases (Constants m) (bind_aliases (Events m) ∅).

(** The first entry of a metrics list whose name is [name]. *)
Definition first_named (name : str) (metrics : list (dict str))
    : option (dict str) :=
  List.find
    (fun a => match dict_get a (lit "name") with
              | Some n => str_eqb n name
              | None => false
              end)
    metrics.

Definition translated (m : PerfmonMetric) : dict str :=
  [(lit "name", LegacyName m);
   (lit "expression",
    apply_replacements (rewrite_spec (alias_table m) (Formula m)))].

End Perfmon2Perfspect.

(* ===================================================================== *)
(** * Sample documents *)
(* ===================================================================== *)

Module Samples.

(** The line terminator. *)
Definition nl : str := lit (String "010" EmptyString).

Definition metric (name expression : string) : dict str :=
  [(lit "name", lit name); (lit "expression", lit expression)].

(** The metrics document of the specification's example. *)
Definition m1 : list (dict str) :=
  [metric "m1" "[A] + [B:c1] - [const_X]"].

(** An events file whose bare line carries nothing but its terminator. *)
Definition events_bare : list str := [lit "A" ++ nl; lit "name='B'" ++ nl].

(** The same declarations as an events file writes them: a bare line ends
    in a separator character and the terminator. *)
Definition events_separated : list str :=
  [lit "A," ++ nl; lit "name='B'" ++ nl].

(** A metric whose expression opens a bracket and never closes it. *)
Definition unclosed : list (dict str) := [metric "m" "[A"].

(** A metric whose expression has a closing bracket before the first
    opening one. *)
Definition stray_close : list (dict str) := [metric "m" "]x[A]"].

(** An events file that declares an event with the constant prefix. *)
Definition events_const : list str :=
  [lit "A," ++ nl; lit "name='B'" ++ nl; lit "const_X," ++ nl].

(** A metric that refers to a name starting with a colon, and an events
    file whose bare line has a colon in it. *)
Definition leading_colon : list (dict str) := [metric "m" "[:x]"].
Definition events_colon : list str := [lit "A:b," ++ nl].

(** A perfmon file without a [Metrics] field next to an earlier output. *)
Definition old_output : list (dict str) := [metric "old" "[X]"].

Definition world_no_metrics : Perfmon2Perfspect.world :=
  {| Perfmon2Perfspect.stdout := [];
     Perfmon2Perfspect.fs :=
       {[ lit "in.json" :=
            Perfmon2Perfspect.PerfmonFile
              {| Perfmon2Perfspect.Metrics := None |};
          lit "out.json" := Perfmon2Perfspect.MetricsFile old_output ]} |}.

(** The translation example of the specification. *)
Definition metric_a : Perfmon2Perfspect.PerfmonMetric :=
  {| Perfmon2Perfspect.LegacyName := lit "metric_a";
     Perfmon2Perfspect.Events :=
       [{| Perfmon2Perfspect.Alias := lit "a";
           Perfmon2Perfspect.Name := lit "EVT_A" |}];
     Perfmon2Perfspect.Constants := [];
     Perfmon2Perfspect.Formula := lit "a * 2" |}.

(** Two metrics that use the alias [b] and one that does not bind it. *)
Definition metric_b1 : Perfmon2Perfspect.PerfmonMetric :=
  {| Perfmon2Perfspect.LegacyName := lit "metric_b1";
     Perfmon2Perfspect.Events :=
       [{| Perfmon2Perfspect.Alias := lit "a";
           Perfmon2Perfspect.Name := lit "INST_RETIRED.ANY" |};
        {| Perfmon2Perfspect.Alias := lit "b";
           Perfmon2Perfspect.Name := lit "EVT_B1" |}];
     Perfmon2Perfspect.Constants := [];
     Perfmon2Perfspect.Formula := lit "a / b" |}.

Definition metric_b2 : Perfmon2Perfspect.PerfmonMetric :=
  {| Perfmon2Perfspect.LegacyName := lit "metric_b2";
     Perfmon2Perfspect.Events := [];
     Perfmon2Perfspect.Constants :=
       [{| Perfmon2Perfspect.Alias := lit "b";
           Perfmon2Perfspect.Name := lit "EVT_B2" |}];
     Perfmon2Perfspect.Formula := lit "b" |}.

Definition metric_shared : Perfmon2Perfspect.PerfmonMetric :=
  {| Perfmon2Perfspect.LegacyName := lit "shared";
     Perfmon2Perfspect.Events :=
       [{| Perfmon2Perfspect.Alias := lit "a";
           Perfmon2Perfspect.Name := lit "EVT_S" |}];
     Perfmon2Perfspect.Constants := [];
     Perfmon2Perfspect.Formula := lit "a + b" |}.

Definition perfmon_1 : list Perfmon2Perfspect.PerfmonMetric :=
  [metric_b1; metric_shared].
Definition perfmon_2 : list Perfmon2Perfspect.PerfmonMetric :=
  [metric_b2; metric_shared].

(** The reconciliation example of the specification. *)
Definition all_metrics : list (dict str) := [metric "m1" "[X]"].
Definition used_metrics : list (dict str) :=
  [metric "m1" "[OLD]"; metric "m2" "[Y]"].

End Samples.

(* ===================================================================== *)
(** * Shapes of input *)
(* ===================================================================== *)

Module Shapes.

(** An expression made of segments: each segment is some text followed by
    a name in square brackets; [tail] is the text after the last one. *)
Definition bracketed (segs : list (str * str)) (tail : str) : str :=
  fold_right
    (fun seg rest => fst seg ++ "["%char :: snd seg ++ "]"%char :: rest)
    tail segs.

(** Every "[" of the expression has a "]" somewhere after it. *)
Definition closed (expression : str) : Prop :=
  forall pre post,
    expression = pre ++ "["%char :: post -> "]"%char ∈ post.

(** A metric object that has both fields the checker reads, with a closed
    expression shorter than [fuel]. *)
Definition scannable (fuel : nat) (m : dict str) : Prop :=
  exists name expression,
    dict_get m (lit "name") = Some name
    /\ dict_get m (lit "expression") = Some expression
    /\ closed expression
    /\ (length expression < fuel)%nat.

(** The name [e] is collected by the scan of the expression of some
    metric of the document. *)
Definition referenced (fuel : nat) (metrics : list (dict str)) (e : str)
    : Prop :=
  exists m expression s,
    m ∈ metrics
    /\ dict_get m (lit "expression") = Some expression
    /\ CheckEvents.scan_formula fuel expression [] = Return s
    /\ e ∈ CheckEvents.m_events s.

(** Sample data. *)
Definition two_metrics : list (dict str) :=
  [Samples.metric "m1" "[A] + [B:c1] - [const_X]";
   Samples.metric "m2" "[A] / [C]"].

Definition events_file : list str :=
  [lit "# core events" ++ Samples.nl;
   Samples.nl;
   lit "A," ++ Samples.nl;
   lit "cpu/event=0x3c,name='B'/," ++ Samples.nl;
   lit "A;" ++ Samples.nl;
   lit "D," ++ Samples.nl].

Definition nameless : dict str := [(lit "expression", lit "[A]")].

(** What the reconciliation puts in place of a used entry: the first
    entry of [allMetrics] with its name, or the entry itself with the
    field [origin]. *)
Definition reconciled (allMetrics : list (dict str)) (m : dict str)
    : dict str :=
  match dict_get m (lit "name") with
  | Some name =>
      default (dict_set m (lit "origin") (lit "perfspect"))
        (Perfmon2Perfspect.first_named name allMetrics)
  | None => m
  end.

(** A world with a perfmon file, a file of used metrics and nothing at
    the output paths. *)
Definition world_in : Perfmon2Perfspect.world :=
  {| Perfmon2Perfspect.stdout := [];
     Perfmon2Perfspect.fs :=
       {[ lit "in.json" :=
            Perfmon2Perfspect.PerfmonFile
              {| Perfmon2Perfspect.Metrics := Some Samples.perfmon_1 |};
          lit "used.json" :=
            Perfmon2Perfspect.MetricsFile
              [Samples.metric "shared" "[OLD]";
               Samples.metric "local" "[Y]"] ]} |}.


End Shapes.

(* ===================================================================== *)
(** * Facts about the built-ins *)
(* ===================================================================== *)

Module PyFacts.

Lemma chr_eqb_eq (a b : ascii) : chr_eqb a b = true <-> a = b.
Proof. apply Ascii.eqb_eq. Qed.

Lemma chr_eqb_neq (a b : ascii) : chr_eqb a b = false <-> a <> b.
Proof. apply Ascii.eqb_neq. Qed.

Lemma chr_eqb_refl (a : ascii) : chr_eqb a a = true.
Proof. by apply chr_eqb_eq. Qed.

Lemma str_eqb_eq (a b : str) : str_eqb a b = true <-> a = b.
Proof.
  revert b. induction a as [|x a IH]; intros [|y b]; simpl; try easy.
  rewrite andb_true_iff, chr_eqb_eq, IH. split.
  - by intros [-> ->].
  - intros [= -> ->]. done.
Qed.

Lemma str_eqb_refl (a : str) : str_eqb a a = true.
Proof. by apply str_eqb_eq. Qed.

Lemma str_eqb_neq (a b : str) : str_eqb a b = false <-> a <> b.
Proof.
  rewrite <- not_true_iff_false, str_eqb_eq. done.
Qed.

Lemma contains_elem_of (l : list str) (x : str) :
  contains l x = true <-> x ∈ l.
Proof.
  induction l as [|y l IH]; simpl.
  - split; [done | by intros ?%elem_of_nil].
  - rewrite orb_true_iff, str_eqb_eq, IH, elem_of_cons. naive_solver.
Qed.

Lemma count_zero (l : list str) (x : str) :
  (count l x =? 0)%Z = true <-> x ∉ l.
Proof.
  assert (Hnn : forall l', (0 <= count l' x)%Z).
  { induction l' as [|y l' IH]; simpl; [lia|]. destruct (str_eqb y x); lia. }
  induction l as [|y l IH]; simpl.
  - split; [intros _; apply not_elem_of_nil | done].
  - rewrite not_elem_of_cons. specialize (Hnn l).
    destruct (str_eqb y x) eqn:E.
    + apply str_eqb_eq in E as ->. split; [lia | naive_solver].
    + apply str_eqb_neq in E. rewrite Z.add_0_l, IH. naive_solver.
Qed.

Lemma startswith_app (s p : str) :
  startswith s p = true <-> exists r, s = p ++ r.
Proof.
  revert s. induction p as [|c p IH]; intros s; simpl.
  - split; [intros _; by exists s | done].
  - destruct s as [|d s].
    + split; [done | by intros [r ?]].
    + rewrite andb_true_iff, chr_eqb_eq, IH. split.
      * intros [-> [r ->]]. eauto.
      * intros [r [= -> ->]]. eauto.
Qed.

(** ** [find] with a one-character needle *)

Lemma startswith_chr (s : str) (c : ascii) :
  startswith s [c] = match s with d :: _ => chr_eqb d c | [] => false end.
Proof. destruct s; simpl; [done | by rewrite andb_true_r]. Qed.

Lemma find_from_absent (s : str) (c : ascii) (i : Z) :
  c ∉ s -> find_from s [c] i = (-1)%Z.
Proof.
  revert i. induction s as [|d s IH]; intros i Hc; simpl; [done|].
  apply not_elem_of_cons in Hc as [Hd Hs].
  rewrite andb_true_r.
  assert (chr_eqb d c = false) as -> by (apply chr_eqb_neq; congruence).
  by apply IH.
Qed.

Lemma find_from_first (pre rest : str) (c : ascii) (i : Z) :
  c ∉ pre -> find_from (pre ++ c :: rest) [c] i = (i + len pre)%Z.
Proof.
  revert i. induction pre as [|d pre IH]; intros i Hc; simpl.
  - rewrite chr_eqb_refl. simpl. unfold len. simpl. lia.
  - apply not_elem_of_cons in Hc as [Hd Hs].
    rewrite andb_true_r.
    assert (chr_eqb d c = false) as -> by (apply chr_eqb_neq; congruence).
    rewrite IH by done. unfold len. simpl length. lia.
Qed.

(** What [find] says about the string it searched. *)
Lemma find_chr_cases (s : str) (c : ascii) :
  (find s [c] = (-1)%Z /\ c ∉ s) \/
  (exists pre rest, s = pre ++ c :: rest /\ c ∉ pre /\ find s [c] = len pre).
Proof.
  unfold find. induction s as [|d s IH].
  - left. split; [done | apply not_elem_of_nil].
  - destruct (chr_eqb d c) eqn:E.
    + apply chr_eqb_eq in E as ->. right. exists [], s.
      split; [done|]. split; [apply not_elem_of_nil|].
      simpl. by rewrite chr_eqb_refl.
    + assert (Hne : d <> c) by by apply chr_eqb_neq.
      destruct IH as [[Hf Hn] | (pre & rest & -> & Hn & Hf)].
      * left. split.
        -- apply find_from_absent. apply not_elem_of_cons. split; [congruence | done].
        -- apply not_elem_of_cons. split; [congruence | done].
      * right. exists (d :: pre), rest. split; [done|].
        assert (c ∉ d :: pre) by (apply not_elem_of_cons; split; [congruence | done]).
        split; [done|].
        exact (find_from_first (d :: pre) rest c 0 H).
Qed.

Lemma find_absent (s : str) (c : ascii) : c ∉ s -> find s [c] = (-1)%Z.
Proof. apply find_from_absent. Qed.

Lemma find_first (pre rest : str) (c : ascii) :
  c ∉ pre -> find (pre ++ c :: rest) [c] = len pre.
Proof. intros H. unfold find. by rewrite find_from_first. Qed.

(** ** Slices *)

Lemma len_app (a b : str) : len (a ++ b) = (len a + len b)%Z.
Proof. unfold len. rewrite length_app. lia. Qed.

Lemma len_nonneg (a : str) : (0 <= len a)%Z.
Proof. unfold len. lia. Qed.

Lemma slice_from_app (pre rest : str) :
  slice_from (pre ++ rest) (len pre) = rest.
Proof.
  unfold slice_from, slice_bound. rewrite len_app.
  pose proof (len_nonneg pre). pose proof (len_nonneg rest).
  destruct (Z.ltb_spec (len pre) 0); [lia|].
  rewrite Z.min_l by lia. unfold len. rewrite Nat2Z.id.
  by rewrite drop_app_length.
Qed.

Lemma slice_from_zero (s : str) : slice_from s 0 = s.
Proof. unfold slice_from, slice_bound. simpl. by rewrite Z.min_l by apply len_nonneg. Qed.

Lemma slice_mid (pre mid rest : str) :
  slice (pre ++ mid ++ rest) (len pre) (len pre + len mid) = mid.
Proof.
  unfold slice, slice_bound. rewrite !len_app.
  pose proof (len_nonneg pre). pose proof (len_nonneg mid).
  pose proof (len_nonneg rest).
  destruct (Z.ltb_spec (len pre) 0); [lia|].
  destruct (Z.ltb_spec (len pre + len mid) 0); [lia|].
  rewrite !Z.min_l by lia.
  replace (len pre + len mid - len pre)%Z with (len mid) by lia.
  unfold len. rewrite !Nat2Z.id.
  by rewrite drop_app_length, take_app_length.
Qed.

Lemma slice_prefix (pre rest : str) : slice (pre ++ rest) 0 (len pre) = pre.
Proof.
  pose proof (slice_mid [] pre rest) as H. simpl in H.
  by rewrite Z.add_0_l in H.
Qed.

End PyFacts.

(** ** Loops *)

Module LoopFacts.

Lemma bind_Return {A B} (m : outcome A) (f : A -> outcome B) (b : B) :
  m ≫= f = Return b <-> exists a, m = Return a /\ f a = Return b.
Proof.
  destruct m as [a| |]; simpl; split; try done.
  - eauto.
  - by intros (a' & [= <-] & ?).
  - by intros (? & ? & ?).
  - by intros (? & ? & ?).
Qed.

(** A loop whose test and body cannot fail keeps an invariant. *)
Lemma while_pure_inv {S} (P : S -> Prop) (cond : S -> bool) (body : S -> S)
    (fuel : nat) (s r : S) :
  (forall s, P s -> cond s = true -> P (body s)) ->
  P s ->
  while fuel (fun s => Return (cond s)) (fun s => Return (body s)) s
    = Return r ->
  P r /\ cond r = false.
Proof.
  intros Hstep. revert s. induction fuel as [|fuel IH]; intros s Hs; [done|].
  simpl. destruct (cond s) eqn:E.
  - intros H. apply (IH (body s)); [by apply Hstep | done].
  - by intros [= <-].
Qed.

(** More fuel does not change the result of a loop that returned. *)
Lemma while_pure_more_fuel {S} (cond : S -> bool) (body : S -> S)
    (fuel k : nat) (s r : S) :
  while fuel (fun s => Return (cond s)) (fun s => Return (body s)) s
    = Return r ->
  while (fuel + k) (fun s => Return (cond s)) (fun s => Return (body s)) s
    = Return r.
Proof.
  revert s. induction fuel as [|fuel IH]; intros s; [done|].
  simpl. destruct (cond s); [apply IH | done].
Qed.

Lemma for_each_inv {S A} (P : S -> Prop) (body : S -> A -> outcome S)
    (l : list A) (s r : S) :
  (forall s x s', P s -> x ∈ l -> body s x = Return s' -> P s') ->
  P s -> for_each l body s = Return r -> P r.
Proof.
  revert s. induction l as [|x l IH]; intros s Hstep Hs; simpl.
  - by intros [= <-].
  - intros (s' & Hb & Hr)%bind_Return.
    apply (IH s'); [| | done].
    + intros ? y ? ? ?. apply Hstep; [done|]. apply elem_of_cons. by right.
    + eapply Hstep; [done | | done]. apply elem_of_cons. by left.
Qed.

Lemma for_each_ext {S A} (body body' : S -> A -> outcome S)
    (l : list A) (s r : S) :
  (forall s x s', body s x = Return s' -> body' s x = Return s') ->
  for_each l body s = Return r -> for_each l body' s = Return r.
Proof.
  intros Hb. revert s. induction l as [|x l IH]; intros s; simpl; [done|].
  intros (s' & H1 & H2)%bind_Return. apply bind_Return. eauto.
Qed.

Lemma for_each_app {S A} (body : S -> A -> outcome S) (l1 l2 : list A)
    (s : S) :
  for_each (l1 ++ l2) body s = for_each l1 body s ≫= for_each l2 body.
Proof.
  revert s. induction l1 as [|x l1 IH]; intros s; simpl; [done|].
  destruct (body s x); simpl; [apply IH | done | done].
Qed.

End LoopFacts.

(** ** Dictionaries *)

Module DictFacts.
Import PyFacts.

Lemma keys_dict_set {V} (d : dict V) (k : str) (v : V) (x : str) :
  x ∈ keys (dict_set d k v) <-> x ∈ keys d \/ x = k.
Proof.
  unfold keys. induction d as [|[k' v'] d IH]; simpl.
  - rewrite list_elem_of_singleton. split; [eauto|].
    by intros [?%elem_of_nil|].
  - destruct (str_eqb k' k) eqn:E; simpl.
    + apply str_eqb_eq in E as ->. rewrite elem_of_cons. naive_solver.
    + rewrite !elem_of_cons, IH. naive_solver.
Qed.

Lemma dict_get_set_eq {V} (d : dict V) (k : str) (v : V) :
  dict_get (dict_set d k v) k = Some v.
Proof.
  induction d as [|[k' v'] d IH]; simpl.
  - by rewrite str_eqb_refl.
  - destruct (str_eqb k' k) eqn:E; simpl; by rewrite E.
Qed.

Lemma dict_get_set_ne {V} (d : dict V) (k k' : str) (v : V) :
  k <> k' -> dict_get (dict_set d k v) k' = dict_get d k'.
Proof.
  intros Hne. induction d as [|[k0 v0] d IH]; simpl.
  - by apply str_eqb_neq in Hne as ->.
  - destruct (str_eqb k0 k) eqn:E; simpl.
    + apply str_eqb_eq in E as ->. by apply str_eqb_neq in Hne as ->.
    + by rewrite IH.
Qed.

Lemma elem_of_filter (f : str -> bool) (l : list str) (x : str) :
  x ∈ List.filter f l <-> x ∈ l /\ f x = true.
Proof. rewrite !list_elem_of_In. apply filter_In. Qed.

End DictFacts.

(* ===================================================================== *)
(** * Properties of [check_events.py] *)
(* ===================================================================== *)

Module CheckEventsFacts.
Import CheckEvents PyFacts LoopFacts DictFacts Samples.

Lemma scan_loop_step (fuel : nat) (s : scan) :
  scan_cond s = true -> scan_loop (S fuel) s = scan_loop fuel (scan_body s).
Proof. intros H. unfold scan_loop. simpl. by rewrite H. Qed.

Lemma scan_loop_stop (fuel : nat) (s : scan) :
  scan_cond s = false -> scan_loop (S fuel) s = Return s.
Proof. intros H. unfold scan_loop. simpl. by rewrite H. Qed.

(** ** The scan of an expression with an unclosed bracket *)

(** On ["[A"] an iteration leaves [formula] and [start_bracket] as they
    were: [find] returns [-1] for the missing "]" and
    [formula[end_bracket+1:]] is then the whole formula. *)
Lemma scan_body_unclosed (used : dict Z) (evs : list str) :
  scan_body {| formula := lit "[A"; start_bracket := 0;
               used_events := used; m_events := evs |}
  = {| formula := lit "[A"; start_bracket := 0;
       used_events := count_event used []; m_events := evs ++ [[]] |}.
Proof. reflexivity. Qed.

Lemma scan_loop_unclosed (fuel : nat) (used : dict Z) (evs : list str) :
  scan_loop fuel {| formula := lit "[A"; start_bracket := 0;
                    used_events := used; m_events := evs |} = OutOfFuel.
Proof.
  revert used evs. induction fuel as [|fuel IH]; intros used evs; [done|].
  rewrite scan_loop_step by done. rewrite scan_body_unclosed. apply IH.
Qed.

(** C3. The check of a metrics document whose one expression is ["[A"]
    does not return, whatever the fuel and the events document: the
    bracket scan of that expression never ends. *)
Theorem check_unclosed_bracket_diverges (fuel : nat) (lines : list str) :
  check fuel unclosed lines = OutOfFuel.
Proof.
  unfold check, unclosed. simpl for_each. unfold scan_metric at 1.
  change (getitem (metric "m" "[A") (lit "name")) with (Return (lit "m")).
  change (getitem (metric "m" "[A") (lit "expression"))
    with (Return (lit "[A")).
  simpl mbind at 1. unfold scan_formula.
  change (find (lit "[A") (lit "[")) with 0%Z.
  by rewrite scan_loop_unclosed.
Qed.

(** ** One step of the scan *)

(** When the first "]" of the formula comes after its first "[", a step
    takes what lies between the two and goes on after the "]": here the
    code and the pairing of the specification agree. *)
Lemma scan_body_paired (s : scan) (pre tok rest : str) :
  formula s = pre ++ "["%char :: tok ++ "]"%char :: rest ->
  "["%char ∉ pre -> "]"%char ∉ pre -> "]"%char ∉ tok ->
  start_bracket s = find (formula s) (lit "[") ->
  m_events (scan_body s) = m_events s ++ [strip_modifier tok]
  /\ formula (scan_body s) = rest
  /\ paired_step (formula s) = (tok, rest).
Proof.
  intros Hf Hpre1 Hpre2 Htok Hstart.
  assert (Hopen : find (formula s) (lit "[") = len pre).
  { rewrite Hf. by apply find_first. }
  assert (Hclose : find (formula s) (lit "]") = (len pre + 1 + len tok)%Z).
  { rewrite Hf.
    change (pre ++ "["%char :: tok ++ "]"%char :: rest)
      with (pre ++ ["["%char] ++ tok ++ "]"%char :: rest).
    rewrite 2!app_assoc.
    change (lit "]") with ["]"%char]. rewrite find_first.
    - rewrite !len_app. done.
    - rewrite !not_elem_of_app. split; [split; [done|] | done].
      rewrite list_elem_of_singleton. discriminate. }
  assert (Htoken : slice (formula s) (start_bracket s + 1)
                     (find (formula s) (lit "]")) = tok).
  { rewrite Hclose, Hstart, Hopen, Hf.
    change (pre ++ "["%char :: tok ++ "]"%char :: rest)
      with (pre ++ ["["%char] ++ tok ++ "]"%char :: rest).
    rewrite (app_assoc pre).
    replace (len pre + 1)%Z with (len (pre ++ ["["%char]))
      by (by rewrite len_app).
    apply slice_mid. }
  assert (Hrest : slice_from (formula s) (find (formula s) (lit "]") + 1)
                  = rest).
  { rewrite Hclose, Hf.
    change (pre ++ "["%char :: tok ++ "]"%char :: rest)
      with (pre ++ ["["%char] ++ tok ++ ["]"%char] ++ rest).
    rewrite 3!app_assoc.
    replace (len pre + 1 + len tok + 1)%Z
      with (len (((pre ++ ["["%char]) ++ tok) ++ ["]"%char]))
      by (by rewrite !len_app).
    apply slice_from_app. }
  split; [| split].
  - unfold scan_body. cbv zeta. cbn [m_events]. by rewrite Htoken.
  - unfold scan_body. cbv zeta. cbn [formula]. by rewrite Hrest.
  - unfold paired_step. rewrite Hopen, Hf.
    change (pre ++ "["%char :: tok ++ "]"%char :: rest)
      with (pre ++ ["["%char] ++ tok ++ "]"%char :: rest).
    rewrite (app_assoc pre).
    replace (len pre + 1)%Z with (len (pre ++ ["["%char]))
      by (by rewrite len_app).
    rewrite slice_from_app.
    change (lit "]") with ["]"%char]. rewrite find_first by done.
    f_equal.
    + apply slice_prefix.
    + change (tok ++ "]"%char :: rest) with (tok ++ ["]"%char] ++ rest).
      rewrite app_assoc.
      replace (len tok + 1)%Z with (len (tok ++ ["]"%char]))
        by (by rewrite len_app).
      apply slice_from_app.
Qed.

(** C4. On ["]x[A]"] the first "[" is at index 2 and the next "]" after it
    at index 4, so the pairing of the specification yields the token ["A"]
    and resumes on the empty string. The code pairs the "[" with the "]"
    at index 0: its step yields the empty token and resumes on ["x[A]"],
    and the whole check then reports the empty name as a missing event. *)
Theorem scan_body_stray_close_bracket :
  let s := {| formula := lit "]x[A]";
              start_bracket := find (lit "]x[A]") (lit "[");
              used_events := []; m_events := [] |} in
  paired_step (formula s) = (lit "A", [])
  /\ m_events (scan_body s) = [[]]
  /\ formula (scan_body s) = lit "x[A]"
  /\ check 3 stray_close [lit "A," ++ nl] = Return ([[]], []).
Proof. vm_compute. done. Qed.

(** ** Expressions on which the scan ends *)

Lemma scan_body_rest (s : scan) (pre rest : str) :
  formula s = pre ++ "]"%char :: rest -> "]"%char ∉ pre ->
  formula (scan_body s) = rest
  /\ start_bracket (scan_body s) = find rest (lit "[").
Proof.
  intros Hf Hpre. unfold scan_body. cbv zeta. cbn [formula start_bracket].
  change (lit "]") with ["]"%char]. rewrite Hf, find_first by done.
  change (pre ++ "]"%char :: rest) with (pre ++ ["]"%char] ++ rest).
  rewrite app_assoc.
  replace (len pre + 1)%Z with (len (pre ++ ["]"%char]))
    by (by rewrite len_app).
  by rewrite slice_from_app.
Qed.

(** When every "[" of the expression has a "]" somewhere after it, the
    scan returns, with fuel for one round per character and one more. *)
Lemma scan_loop_closed (n : nat) (f : str) (used : dict Z)
    (evs : list str) :
  (length f <= n)%nat ->
  (forall pre post, f = pre ++ "["%char :: post -> "]"%char ∈ post) ->
  exists s,
    scan_loop (S n) {| formula := f; start_bracket := find f (lit "[");
                       used_events := used; m_events := evs |} = Return s.
Proof.
  revert f used evs. induction n as [|n IH]; intros f used evs Hn Hclosed.
  - destruct f; [|simpl in Hn; lia]. by eexists.
  - destruct (find_chr_cases f "["%char)
      as [[Hfind _] | (pre & post & Hf & Hpre & Hfind)];
      change ["["%char] with (lit "[") in Hfind.
    + rewrite scan_loop_stop; [by eexists|].
      unfold scan_cond. cbn [start_bracket]. by rewrite Hfind.
    + rewrite scan_loop_step.
      2:{ unfold scan_cond. cbn [start_bracket]. rewrite Hfind.
          apply Z.geb_le, len_nonneg. }
      assert (Hin : "]"%char ∈ f).
      { rewrite Hf. apply elem_of_app. right. apply elem_of_cons. right.
        by apply (Hclosed pre post). }
      destruct (find_chr_cases f "]"%char)
        as [[_ Hnot] | (p2 & r2 & Hf2 & Hp2 & _)]; [done|].
      match goal with |- context [scan_body ?s0] =>
        destruct (scan_body_rest s0 p2 r2 Hf2 Hp2) as [Hrest Hstart];
        destruct (scan_body s0) as [f' start' used' evs'] end.
      cbn [formula start_bracket] in Hrest, Hstart. subst f' start'.
      apply IH.
      * rewrite Hf2, length_app in Hn. simpl in Hn. lia.
      * intros a b Hab. apply (Hclosed (p2 ++ "]"%char :: a) b).
        rewrite Hf2, Hab. by rewrite <- app_assoc.
Qed.

(** ** The accounting of used events *)

Lemma count_event_keys (used : dict Z) (event e : str) :
  e ∈ keys (count_event used event) <-> e ∈ keys used \/ e = event.
Proof. apply keys_dict_set. Qed.

(** No key of [used_events] starts with ["const_"]: the scan keeps it so. *)
Lemma scan_body_no_const (s : scan) :
  (forall e, e ∈ keys (used_events s) ->
             startswith e (lit "const_") = false) ->
  forall e, e ∈ keys (used_events (scan_body s)) ->
            startswith e (lit "const_") = false.
Proof.
  intros Hs e. unfold scan_body. cbv zeta. cbn [used_events].
  match goal with |- context [startswith ?ev (lit "const_")] =>
    destruct (startswith ev (lit "const_")) eqn:E end; simpl negb; cbv iota.
  - apply Hs.
  - intros [H | ->]%count_event_keys; [by apply Hs | done].
Qed.

Lemma scan_formula_no_const (fuel : nat) (expression : str) (used : dict Z)
    (s : scan) :
  (forall e, e ∈ keys used -> startswith e (lit "const_") = false) ->
  scan_formula fuel expression used = Return s ->
  forall e, e ∈ keys (used_events s) -> startswith e (lit "const_") = false.
Proof.
  intros Hused Hs.
  eapply (while_pure_inv
            (fun s => forall e, e ∈ keys (used_events s) ->
                                startswith e (lit "const_") = false));
    [| | exact Hs].
  - intros s' Hs' _. by apply scan_body_no_const.
  - exact Hused.
Qed.

Lemma scan_metric_Return (fuel : nat) (st st' : dict (list str) * dict Z)
    (m : dict str) :
  scan_metric fuel st m = Return st' ->
  exists name expression s,
    getitem m (lit "name") = Return name
    /\ getitem m (lit "expression") = Return expression
    /\ scan_formula fuel expression (snd st) = Return s
    /\ st' = (dict_set (fst st) name (m_events s), used_events s).
Proof.
  unfold scan_metric.
  intros (name & Hn & (expression & He & (s & Hs & [= <-])%bind_Return)
            %bind_Return)%bind_Return.
  by exists name, expression, s.
Qed.

Lemma metrics_no_const (fuel : nat) (metrics : list (dict str))
    (st : dict (list str) * dict Z) :
  for_each metrics (scan_metric fuel) ([], []) = Return st ->
  forall e, e ∈ keys (snd st) -> startswith e (lit "const_") = false.
Proof.
  apply (for_each_inv
           (fun st : dict (list str) * dict Z =>
              forall e, e ∈ keys (snd st) ->
                        startswith e (lit "const_") = false)).
  - intros s m s' Hs _ (name & expression & sc & _ & _ & Hsc & ->)
      %scan_metric_Return.
    simpl. by eapply scan_formula_no_const.
  - simpl. by intros e ?%elem_of_nil.
Qed.

Lemma check_Return (fuel : nat) (metrics : list (dict str))
    (lines : list str) (missing unused : list str) :
  check fuel metrics lines = Return (missing, unused) ->
  exists st,
    for_each metrics (scan_metric fuel) ([], []) = Return st
    /\ missing = missing_of (snd st) (declared_events lines)
    /\ unused = unused_of (snd st) (declared_events lines).
Proof.
  unfold check. intros (st & Hst & [= <- <-])%bind_Return. by exists st.
Qed.

(** C6. An event name that starts with ["const_"] is never among the
    missing events; it is among the unused events exactly when the events
    document declares it. *)
Theorem const_prefix_accounting (fuel : nat) (metrics : list (dict str))
    (lines : list str) (missing unused : list str) (e : str) :
  check fuel metrics lines = Return (missing, unused) ->
  startswith e (lit "const_") = true ->
  e ∉ missing /\ (e ∈ unused <-> e ∈ declared_events lines).
Proof.
  intros (st & Hst & -> & ->)%check_Return Hconst.
  assert (Hkey : e ∉ keys (snd st)).
  { intros He. apply (metrics_no_const _ _ _ Hst) in He. congruence. }
  split.
  - unfold missing_of. rewrite elem_of_filter. by intros [? _].
  - unfold unused_of. rewrite elem_of_filter, negb_true_iff.
    split; [by intros [? _] | intros He; split; [done|]].
    apply not_true_iff_false. by rewrite contains_elem_of.
Qed.

Lemma const_prefix_accounting_witness :
  check 4 m1 events_const = Return ([], [lit "const_X"])
  /\ startswith (lit "const_X") (lit "const_") = true
  /\ lit "const_X" ∉ ([] : list str)
  /\ (lit "const_X" ∈ [lit "const_X"]
      <-> lit "const_X" ∈ declared_events events_const).
Proof.
  split; [reflexivity|]. split; [reflexivity|].
  apply (const_prefix_accounting 4 m1 events_const); reflexivity.
Defined.

(** C6, as stated, fails: a declared event with the constant prefix that
    no formula counts is reported as unused. *)
Lemma const_prefix_declared_is_unused :
  check 4 m1 events_const = Return ([], [lit "const_X"])
  /\ startswith (lit "const_X") (lit "const_") = true
  /\ lit "const_X" ∈ [lit "const_X"].
Proof.
  split; [reflexivity|]. split; [reflexivity|].
  apply list_elem_of_singleton. reflexivity.
Qed.

(** ** The two lists never meet *)

Lemma missing_unused_apart (used : dict Z) (event_list : list str) (e : str) :
  e ∈ missing_of used event_list -> e ∈ unused_of used event_list -> False.
Proof.
  unfold missing_of, unused_of. rewrite !elem_of_filter, !negb_true_iff.
  intros [_ Hnot] [Hin _]. apply contains_elem_of in Hin. congruence.
Qed.

(** C8. The two lists are disjoint: a missing event is not in the declared
    list, an unused event is. *)
Theorem missing_unused_disjoint (fuel : nat) (metrics : list (dict str))
    (lines : list str) (missing unused : list str) (e : str) :
  check fuel metrics lines = Return (missing, unused) ->
  e ∈ missing -> e ∉ unused.
Proof.
  intros (st & _ & -> & ->)%check_Return Hm Hu.
  by eapply missing_unused_apart.
Qed.

Lemma missing_unused_disjoint_witness :
  check 4 m1 events_bare = Return ([lit "A"], [])
  /\ lit "A" ∈ [lit "A"]
  /\ lit "A" ∉ ([] : list str).
Proof.
  split; [reflexivity|].
  split; [apply list_elem_of_singleton; reflexivity|].
  apply (missing_unused_disjoint 4 m1 events_bare [lit "A"] []);
    [reflexivity | apply list_elem_of_singleton; reflexivity].
Defined.

(** C8, as stated, fails: no run of the check returns two lists with a
    common event name. *)
Lemma missing_unused_never_intersect :
  ~ exists (fuel : nat) (metrics : list (dict str)) (lines : list str)
      (missing unused : list str) (e : str),
      check fuel metrics lines = Return (missing, unused)
      /\ e ∈ missing /\ e ∈ unused.
Proof.
  intros (fuel & metrics & lines & missing & unused & e & Hc & Hm & Hu).
  apply check_Return in Hc as (st & _ & -> & ->).
  by eapply missing_unused_apart.
Qed.

(** ** Fuel *)

Lemma scan_formula_more_fuel (fuel k : nat) (expression : str)
    (used : dict Z) (s : scan) :
  scan_formula fuel expression used = Return s ->
  scan_formula (fuel + k) expression used = Return s.
Proof. unfold scan_formula, scan_loop. apply while_pure_more_fuel. Qed.

Lemma check_more_fuel (fuel k : nat) (metrics : list (dict str))
    (lines : list str) (r : list str * list str) :
  check fuel metrics lines = Return r ->
  check (fuel + k) metrics lines = Return r.
Proof.
  unfold check. intros (st & Hst & Hr)%bind_Return.
  apply bind_Return. exists st. split; [|done].
  revert Hst. apply for_each_ext. clear.
  intros st m st' (name & expression & s & Hn & He & Hs & ->)
    %scan_metric_Return.
  unfold scan_metric. rewrite Hn, He. simpl.
  by rewrite (scan_formula_more_fuel _ _ _ _ _ Hs).
Qed.

(** C10. For the metrics document of the example, an events file with the
    lines [A] and [name='B'] declares only [B], since a bare line loses
    its last two characters: [A] is reported missing. With the bare line
    written [A,] both lists are empty. Four rounds of fuel are enough. *)
Theorem check_example_m1 (k : nat) :
  check (4 + k) m1 events_bare = Return ([lit "A"], [])
  /\ check (4 + k) m1 events_separated = Return ([], []).
Proof. split; by apply check_more_fuel. Qed.

(** C10, as stated, fails: the check does not return two empty lists on
    the lines [A] and [name='B'], with or without a terminator on the
    last line. *)
Lemma check_example_bare_line :
  check 4 m1 events_bare = Return ([lit "A"], [])
  /\ check 4 m1 [lit "A" ++ nl; lit "name='B'"] = Return ([lit "A"], [])
  /\ declared_events events_bare = [lit "B"].
Proof. repeat split. Qed.

(** ** The colon test *)

Lemma strip_modifier_prefix (name modifier : str) :
  name <> [] -> ":"%char ∉ name ->
  strip_modifier (name ++ ":"%char :: modifier) = name.
Proof.
  intros Hne Hcolon. unfold strip_modifier.
  change (lit ":") with [":"%char]. rewrite find_first by done.
  assert (0 < len name)%Z as Hpos.
  { unfold len. destruct name; [done | simpl length; lia]. }
  destruct (Z.gtb_spec (len name) 0); [| lia].
  apply slice_prefix.
Qed.

Lemma strip_modifier_plain (x : str) : ":"%char ∉ x -> strip_modifier x = x.
Proof.
  intros H. unfold strip_modifier.
  change (lit ":") with [":"%char]. by rewrite find_absent.
Qed.

(** The value between the first two single quotes after ["name="]. *)
Lemma get_event_quoted (pre mid value rest : str) :
  let line := pre ++ lit "name=" ++ mid ++ "'"%char :: value
                ++ "'"%char :: rest in
  startswith line (lit "#") = false ->
  find line (lit "name=") = len pre ->
  "'"%char ∉ mid -> "'"%char ∉ value ->
  get_event line = Some (strip_modifier value).
Proof.
  intros line Hhash Hname Hmid Hvalue. unfold get_event.
  assert (str_eqb line [] = false) as ->.
  { apply str_eqb_neq. subst line. by destruct pre. }
  rewrite Hhash, Hname. simpl negb. simpl andb. cbv iota.
  pose proof (len_nonneg pre).
  destruct (Z.geb_spec (len pre) 0); [| lia].
  assert (slice_from line (len pre + 5)
          = mid ++ "'"%char :: value ++ "'"%char :: rest) as ->.
  { subst line. rewrite app_assoc.
    replace (len pre + 5)%Z with (len (pre ++ lit "name="))
      by (by rewrite len_app).
    apply slice_from_app. }
  change (lit "'") with ["'"%char]. rewrite find_first by done.
  assert (slice_from (mid ++ "'"%char :: value ++ "'"%char :: rest)
            (len mid + 1) = value ++ "'"%char :: rest) as ->.
  { change (mid ++ "'"%char :: value ++ "'"%char :: rest)
      with (mid ++ ["'"%char] ++ value ++ "'"%char :: rest).
    rewrite app_assoc.
    replace (len mid + 1)%Z with (len (mid ++ ["'"%char]))
      by (by rewrite len_app).
    apply slice_from_app. }
  rewrite find_first by done. by rewrite slice_prefix.
Qed.

(** A line without ["name="] gives its content minus the last two
    characters, colons included. *)
Lemma get_event_bare (line : str) :
  line <> [] -> startswith line (lit "#") = false ->
  (find line (lit "name=") < 0)%Z ->
  get_event line = Some (slice line 0 (-2)).
Proof.
  intros Hne Hhash Hname. unfold get_event.
  apply str_eqb_neq in Hne as ->. rewrite Hhash.
  simpl negb. simpl andb. cbv iota.
  destruct (Z.geb_spec (find line (lit "name=")) 0); [lia | done].
Qed.

(** C7. An extracted name whose first colon comes after a non-empty,
    colon-free prefix is cut down to that prefix, both in the formula scan
    and for the quoted value of a [name=] line; the token then has no
    colon. A bare line of the events file is not cut at a colon. *)
Theorem colon_truncation (name modifier : str) :
  name <> [] -> ":"%char ∉ name ->
  let x := name ++ ":"%char :: modifier in
  strip_modifier x = name
  /\ (forall (s : scan) (pre rest : str),
        formula s = pre ++ "["%char :: x ++ "]"%char :: rest ->
        "["%char ∉ pre -> "]"%char ∉ pre -> "]"%char ∉ x ->
        start_bracket s = find (formula s) (lit "[") ->
        m_events (scan_body s) = m_events s ++ [name])
  /\ (forall (pre mid rest : str),
        let line := pre ++ lit "name=" ++ mid ++ "'"%char :: x
                      ++ "'"%char :: rest in
        startswith line (lit "#") = false ->
        find line (lit "name=") = len pre ->
        "'"%char ∉ mid -> "'"%char ∉ x ->
        get_event line = Some name)
  /\ (forall (line : str),
        line <> [] -> startswith line (lit "#") = false ->
        (find line (lit "name=") < 0)%Z ->
        get_event line = Some (slice line 0 (-2))).
Proof.
  intros Hne Hcolon x.
  assert (Hx : strip_modifier x = name) by by apply strip_modifier_prefix.
  split; [done|]. split; [| split].
  - intros s pre rest Hf H1 H2 H3 H4.
    destruct (scan_body_paired s pre x rest) as (-> & _); try done.
    by rewrite Hx.
  - intros pre mid rest line Hhash Hfind Hmid Hq.
    subst line. rewrite get_event_quoted by done. by rewrite Hx.
  - apply get_event_bare.
Qed.

Lemma colon_truncation_witness :
  lit "B" <> [] /\ ":"%char ∉ lit "B"
  /\ strip_modifier (lit "B:c1") = lit "B"
  /\ m_events (scan_body {| formula := lit "[B:c1] - [const_X]";
                            start_bracket := 0;
                            used_events := []; m_events := [lit "A"] |})
     = [lit "A"; lit "B"]
  /\ get_event (lit "cpu/event=0x3c,name='B:c1'/," ++ nl) = Some (lit "B")
  /\ get_event (lit "A:b," ++ nl) = Some (lit "A:b").
Proof.
  assert (Hne : lit "B" <> []) by discriminate.
  assert (Hcolon : ":"%char ∉ lit "B").
  { apply not_elem_of_cons. split; [discriminate | apply not_elem_of_nil]. }
  split; [exact Hne|]. split; [exact Hcolon|].
  destruct (colon_truncation (lit "B") (lit "c1") Hne Hcolon)
    as (Hstrip & Hscan & Hquoted & Hbare).
  split; [exact Hstrip|]. split; [| split].
  - apply (Hscan {| formula := lit "[B:c1] - [const_X]"; start_bracket := 0;
                    used_events := []; m_events := [lit "A"] |}
             [] (lit " - [const_X]")); try reflexivity.
    + apply not_elem_of_nil.
    + apply not_elem_of_nil.
    + intros H. by repeat (apply elem_of_cons in H as [H|H]; [done|]);
        apply elem_of_nil in H.
  - apply (Hquoted (lit "cpu/event=0x3c,") [] (lit "/," ++ nl));
      try reflexivity.
    + apply not_elem_of_nil.
    + intros H. by repeat (apply elem_of_cons in H as [H|H]; [done|]);
        apply elem_of_nil in H.
  - apply (Hbare (lit "A:b," ++ nl)); [discriminate | reflexivity | done].
Defined.

(** C7, as stated, fails: a name that starts with a colon is kept whole,
    in a formula and in a [name=] line, and a bare line keeps its colon;
    such tokens take part in the comparison. *)
Lemma colon_kept_in_tokens :
  check 2 leading_colon [] = Return ([lit ":x"], [])
  /\ get_event (lit "name=':x'" ++ nl) = Some (lit ":x")
  /\ check 1 [] events_colon = Return ([], [lit "A:b"])
  /\ ":"%char ∈ lit ":x" /\ ":"%char ∈ lit "A:b".
Proof.
  repeat split.
  - apply elem_of_cons. by left.
  - apply elem_of_cons. right. apply elem_of_cons. by left.
Qed.

End CheckEventsFacts.

(* ===================================================================== *)
(** * Properties of [perfmon2perfspect.py] *)
(* ===================================================================== *)

Module Perfmon2PerfspectFacts.
Import Perfmon2Perfspect PyFacts LoopFacts DictFacts Samples.

(** ** A document without [Metrics] *)

(** C9. When the document read from [inFile] has no [Metrics] field, the
    translation returns after printing one diagnostic line: nothing is
    translated and the file system, the output path included, is as it
    was. *)
Theorem translate_without_metrics (fuel : nat) (inFile outFile : str)
    (w : world) :
  fs w !! inFile = Some (PerfmonFile {| Metrics := None |}) ->
  translate_perfmon_metrics_to_perfspect fuel inFile outFile w
  = Return {| stdout := stdout w
                ++ [lit "ERROR: No metrics were found in " ++ inFile];
              fs := fs w |}.
Proof.
  intros Hin. unfold translate_perfmon_metrics_to_perfspect, load_perfmon.
  by rewrite Hin.
Qed.

Lemma translate_without_metrics_witness :
  fs world_no_metrics !! lit "in.json"
  = Some (PerfmonFile {| Metrics := None |})
  /\ translate_perfmon_metrics_to_perfspect 0 (lit "in.json")
       (lit "out.json") world_no_metrics
     = Return {| stdout := [lit "ERROR: No metrics were found in in.json"];
                 fs := fs world_no_metrics |}
  /\ fs world_no_metrics !! lit "out.json" = Some (MetricsFile old_output).
Proof.
  split; [reflexivity|]. split; [| reflexivity].
  apply (translate_without_metrics 0 (lit "in.json") (lit "out.json")
           world_no_metrics).
  reflexivity.
Defined.

(** ** Reconciliation *)

Lemma find_metric_first_named (allMetrics : list (dict str)) (name : str) :
  Forall (fun a => is_Some (dict_get a (lit "name"))) allMetrics ->
  find_metric allMetrics name = Return (first_named name allMetrics).
Proof.
  induction 1 as [|a l [n Hn] _ IH]; [done|].
  unfold first_named in *. cbn [find_metric List.find].
  unfold getitem. rewrite Hn. cbn [mbind outcome_bind].
  destruct (str_eqb n name); [done|]. apply IH.
Qed.

Lemma used_body_named (allMetrics result : list (dict str)) (m : dict str)
    (name : str) :
  Forall (fun a => is_Some (dict_get a (lit "name"))) allMetrics ->
  dict_get m (lit "name") = Some name ->
  used_body allMetrics result m
  = Return (result ++ [default (dict_set m (lit "origin") (lit "perfspect"))
                         (first_named name allMetrics)]).
Proof.
  intros Hall Hm. unfold used_body, getitem. rewrite Hm. simpl.
  rewrite find_metric_first_named by done. simpl.
  by destruct (first_named name allMetrics).
Qed.

Lemma first_named_name (name : str) (metrics : list (dict str))
    (a : dict str) :
  first_named name metrics = Some a -> dict_get a (lit "name") = Some name.
Proof.
  intros [_ H]%find_some.
  destruct (dict_get a (lit "name")) as [n|]; [|done].
  by apply str_eqb_eq in H as ->.
Qed.

(** The loop, from any [result] so far: one entry is appended per used
    entry, and entry [i] is decided by used entry [i] alone. *)
Lemma reconcile_loop (allMetrics usedMetrics acc : list (dict str)) :
  Forall (fun a => is_Some (dict_get a (lit "name"))) allMetrics ->
  Forall (fun m => is_Some (dict_get m (lit "name"))) usedMetrics ->
  exists result,
    for_each usedMetrics (used_body allMetrics) acc = Return (acc ++ result)
    /\ length result = length usedMetrics
    /\ forall (i : nat) (m : dict str) (name : str),
         usedMetrics !! i = Some m ->
         dict_get m (lit "name") = Some name ->
         result !! i
         = Some (default (dict_set m (lit "origin") (lit "perfspect"))
                   (first_named name allMetrics)).
Proof.
  intros Hall Hused. revert acc.
  induction Hused as [|m l [n Hn] _ IH]; intros acc.
  - exists []. simpl. rewrite app_nil_r. split; [done|]. split; [done|].
    intros i m name H. by rewrite lookup_nil in H.
  - cbn [for_each]. rewrite (used_body_named _ _ _ n) by done.
    cbn [mbind outcome_bind].
    destruct (IH (acc ++ [default (dict_set m (lit "origin")
                                     (lit "perfspect"))
                            (first_named n allMetrics)]))
      as (result & Hr & Hlen & Hnth).
    eexists (_ :: result). split; [| split].
    + rewrite Hr. by rewrite <- app_assoc.
    + simpl. by rewrite Hlen.
    + intros [|i] m' name.
      * intros [= <-] Hm'. rewrite Hn in Hm'. by injection Hm' as <-.
      * exact (Hnth i m' name).
Qed.

(** C2. On lists whose entries all have a name, the reconciliation returns
    one entry per used entry, in the order of the used list: the first
    entry of [allMetrics] with the name of the used one when there is one,
    and else the used entry with the field [origin] set to ["perfspect"]
    and its other fields as they were. Either way the entry has the name
    of the used one. *)
Theorem reconcile_spec (allMetrics usedMetrics : list (dict str)) :
  Forall (fun a => is_Some (dict_get a (lit "name"))) allMetrics ->
  Forall (fun m => is_Some (dict_get m (lit "name"))) usedMetrics ->
  exists result,
    reconcile allMetrics usedMetrics = Return result
    /\ length result = length usedMetrics
    /\ forall (i : nat) (m : dict str) (name : str),
         usedMetrics !! i = Some m ->
         dict_get m (lit "name") = Some name ->
         exists r,
           result !! i = Some r
           /\ dict_get r (lit "name") = Some name
           /\ match first_named name allMetrics with
              | Some a => r = a
              | None =>
                  r = dict_set m (lit "origin") (lit "perfspect")
                  /\ dict_get r (lit "origin") = Some (lit "perfspect")
                  /\ forall k, k <> lit "origin" ->
                               dict_get r k = dict_get m k
              end.
Proof.
  intros Hall Hused.
  destruct (reconcile_loop allMetrics usedMetrics [] Hall Hused)
    as (result & Hr & Hlen & Hnth).
  exists result. split; [exact Hr|]. split; [exact Hlen|].
  intros i m name Hi Hm. rewrite (Hnth i m name Hi Hm).
  eexists. split; [done|].
  destruct (first_named name allMetrics) as [a|] eqn:E; simpl.
  - split; [by eapply first_named_name | done].
  - split; [| split; [done | split]].
    + rewrite dict_get_set_ne; [done | discriminate].
    + apply dict_get_set_eq.
    + intros k Hk. by apply dict_get_set_ne.
Qed.

Lemma reconcile_spec_witness :
  Forall (fun a => is_Some (dict_get a (lit "name"))) all_metrics
  /\ Forall (fun m => is_Some (dict_get m (lit "name"))) used_metrics
  /\ exists result,
       reconcile all_metrics used_metrics = Return result
       /\ length result = 2
       /\ result !! 0 = Some (metric "m1" "[X]")
       /\ result !! 1
          = Some (dict_set (metric "m2" "[Y]") (lit "origin")
                    (lit "perfspect")).
Proof.
  assert (Hall : Forall (fun a => is_Some (dict_get a (lit "name")))
                   all_metrics).
  { repeat constructor. by eexists. }
  assert (Hused : Forall (fun m => is_Some (dict_get m (lit "name")))
                    used_metrics).
  { repeat constructor; by eexists. }
  split; [exact Hall|]. split; [exact Hused|].
  destruct (reconcile_spec all_metrics used_metrics Hall Hused)
    as (result & Hr & Hlen & Hnth).
  exists result. split; [exact Hr|]. split; [exact Hlen|].
  split.
  - destruct (Hnth 0 (metric "m1" "[OLD]") (lit "m1") eq_refl eq_refl)
      as (r & -> & _ & Hfirst).
    simpl in Hfirst. by rewrite Hfirst.
  - destruct (Hnth 1 (metric "m2" "[Y]") (lit "m2") eq_refl eq_refl)
      as (r & -> & _ & Hfirst).
    simpl in Hfirst. destruct Hfirst as [-> _]. reflexivity.
Defined.

(** ** The rewriting of a formula *)

Lemma getchar_app (pre rest : str) (c : ascii) :
  getchar (pre ++ c :: rest) (len pre) = Return c.
Proof.
  unfold getchar. pose proof (len_nonneg pre).
  destruct (Z.ltb_spec (len pre) 0); [lia|].
  destruct (Z.ltb_spec (len pre) 0); [lia|].
  unfold len. rewrite Nat2Z.id.
  rewrite nth_error_app2 by lia. by rewrite Nat.sub_diag.
Qed.

Lemma len_snoc (pre : str) (c : ascii) : len (pre ++ [c]) = (len pre + 1)%Z.
Proof. by rewrite len_app. Qed.

Lemma len_cons (c : ascii) (s : str) : len (c :: s) = (1 + len s)%Z.
Proof. unfold len. simpl length. lia. Qed.

(** The inner loop collects the identifier characters that follow, up to
    the first other character or the end. *)
Lemma run_loop (formula : str) (run rest : str) :
  Forall (fun c => is_ident c = true) run ->
  match rest with [] => True | d :: _ => is_ident d = false end ->
  forall (pre x : str) (fuel : nat),
    formula = pre ++ run ++ rest ->
    (length run < fuel)%nat ->
    while fuel (run_cond formula) (run_body formula) (x, len pre)
    = Return (x ++ run, (len pre + len run)%Z).
Proof.
  intros Hrun Hrest. induction Hrun as [|c run Hc _ IH];
    intros pre x [|fuel] Hf Hfuel; try (simpl in Hfuel; lia);
    cbn [app] in Hf; cbn [while];
    change (run_cond formula (x, len pre))
      with (if (len pre <? len formula)%Z
            then c ← getchar formula (len pre); Return (is_ident c)
            else Return false).
  - rewrite app_nil_r. change (len []) with 0%Z. rewrite Z.add_0_r.
    destruct rest as [|d rest].
    + assert (len pre <? len formula = false)%Z as ->
        by (rewrite Hf, app_nil_r; apply Z.ltb_irrefl).
      done.
    + assert (len pre <? len formula = true)%Z as ->.
      { apply Z.ltb_lt. rewrite Hf, len_app, len_cons.
        pose proof (len_nonneg rest). lia. }
      assert (getchar formula (len pre) = Return d) as ->
        by (rewrite Hf; apply getchar_app).
      cbn [mbind outcome_bind]. by rewrite Hrest.
  - change (run_body formula (x, len pre))
      with (c ← getchar formula (len pre);
            Return (x ++ [c], (len pre + 1)%Z)).
    assert (len pre <? len formula = true)%Z as ->.
    { apply Z.ltb_lt. rewrite Hf, len_app, len_cons.
      pose proof (len_nonneg (run ++ rest)). lia. }
    assert (getchar formula (len pre) = Return c) as ->
      by (rewrite Hf; apply getchar_app).
    cbn [mbind outcome_bind]. rewrite Hc. cbn [mbind outcome_bind].
    rewrite <- (len_snoc pre c).
    etrans; [apply (IH (pre ++ [c]) (x ++ [c]) fuel) |].
    + rewrite Hf. by rewrite <- app_assoc.
    + simpl in Hfuel. lia.
    + rewrite <- app_assoc. cbn [app]. rewrite len_snoc, len_cons.
      do 2 f_equal. lia.
Qed.

(** Every string starts with a maximal run of identifier characters. *)
Lemma ident_span (s : str) :
  exists run rest,
    s = run ++ rest
    /\ Forall (fun c => is_ident c = true) run
    /\ match rest with [] => True | d :: _ => is_ident d = false end.
Proof.
  induction s as [|c s (run & rest & -> & Hrun & Hrest)].
  - by exists [], [].
  - destruct (is_ident c) eqn:E.
    + exists (c :: run), rest. split; [done|]. split; [by constructor | done].
    + exists [], (c :: run ++ rest). by split.
Qed.

Lemma tokens_cons (c : ascii) (rest : str) :
  tokens (c :: rest)
  = if is_ident c then
      match tokens rest with
      | Ident run :: ts => Ident (c :: run) :: ts
      | ts => Ident [c] :: ts
      end
    else Other c :: tokens rest.
Proof. reflexivity. Qed.

(** A run of identifier characters that ends at another character, or at
    the end, is one token. *)
Lemma tokens_run (run rest : str) :
  Forall (fun c => is_ident c = true) run ->
  match rest with [] => True | d :: _ => is_ident d = false end ->
  forall c, is_ident c = true ->
    tokens (c :: run ++ rest) = Ident (c :: run) :: tokens rest.
Proof.
  intros Hrun Hrest. induction Hrun as [|c' run Hc' _ IH]; intros c Hc.
  - cbn [app]. rewrite tokens_cons, Hc.
    destruct rest as [|d rest]; [done|].
    by rewrite tokens_cons, Hrest.
  - cbn [app]. rewrite tokens_cons, Hc. by rewrite IH.
Qed.

Lemma rewrite_spec_other (table : gmap str str) (c : ascii) (rest : str) :
  is_ident c = false ->
  rewrite_spec table (c :: rest) = c :: rewrite_spec table rest.
Proof. intros H. unfold rewrite_spec. by rewrite tokens_cons, H. Qed.

Lemma rewrite_spec_run (table : gmap str str) (c : ascii) (run rest : str) :
  is_ident c = true ->
  Forall (fun c => is_ident c = true) run ->
  match rest with [] => True | d :: _ => is_ident d = false end ->
  rewrite_spec table (c :: run ++ rest)
  = emit table (Ident (c :: run)) ++ rewrite_spec table rest.
Proof.
  intros Hc Hrun Hrest. unfold rewrite_spec. by rewrite tokens_run.
Qed.

Lemma rewrite_body_ident (fuel : nat) (vars : gmap str str) (formula : str)
    (i : Z) (newFormula : str) (c : ascii) (x : str) (k : Z) :
  getchar formula i = Return c ->
  is_ident c = true ->
  while fuel (run_cond formula) (run_body formula) ([c], (i + 1)%Z)
  = Return (x, k) ->
  rewrite_body fuel vars formula (i, newFormula)
  = Return (k, match vars !! x with
               | Some name => newFormula ++ lit "[" ++ name ++ lit "]"
               | None => newFormula ++ slice formula i k
               end).
Proof.
  intros Hget Hc Hrun. unfold rewrite_body. rewrite Hget.
  cbn [mbind outcome_bind]. rewrite Hc.
  apply bind_Return. exists (x, k). split; [exact Hrun | done].
Qed.

Lemma rewrite_body_other (fuel : nat) (vars : gmap str str) (formula : str)
    (i : Z) (newFormula : str) (c : ascii) :
  getchar formula i = Return c ->
  is_ident c = false ->
  rewrite_body fuel vars formula (i, newFormula)
  = Return ((i + 1)%Z, newFormula ++ [c]).
Proof.
  intros Hget Hc. unfold rewrite_body. rewrite Hget.
  cbn [mbind outcome_bind]. by rewrite Hc.
Qed.

(** The outer loop, from a token boundary [len pre] with [acc] written so
    far: it ends at the end of the formula, having appended the rewriting
    of the rest. [fuel0] is the fuel of the inner loops. *)
Lemma rewrite_loop (fuel0 : nat) (vars : gmap str str) (formula : str) :
  (length formula < fuel0)%nat ->
  forall (n : nat) (rest pre acc : str) (fuel : nat),
    (length rest <= n)%nat ->
    formula = pre ++ rest ->
    (length rest < fuel)%nat ->
    while fuel (rewrite_cond formula) (rewrite_body fuel0 vars formula)
      (len pre, acc)
    = Return (len formula, acc ++ rewrite_spec vars rest).
Proof.
  intros Hfuel0. induction n as [|n IH];
    intros rest pre acc [|fuel] Hn Hf Hfuel; try lia.
  - destruct rest; [|simpl in Hn; lia].
    rewrite app_nil_r in Hf. subst pre.
    cbn [while].
    change (rewrite_cond formula (len formula, acc))
      with (Return (A := bool) (len formula <? len formula)%Z).
    cbn [mbind outcome_bind]. rewrite Z.ltb_irrefl. by rewrite app_nil_r.
  - destruct rest as [|c rest].
    { rewrite app_nil_r in Hf. subst pre. cbn [while].
      change (rewrite_cond formula (len formula, acc))
        with (Return (A := bool) (len formula <? len formula)%Z).
      cbn [mbind outcome_bind]. rewrite Z.ltb_irrefl. by rewrite app_nil_r. }
    cbn [while].
    change (rewrite_cond formula (len pre, acc))
      with (Return (A := bool) (len pre <? len formula)%Z).
    cbn [mbind outcome_bind].
    assert (len pre <? len formula = true)%Z as ->.
    { apply Z.ltb_lt. rewrite Hf, len_app, len_cons.
      pose proof (len_nonneg rest). lia. }
    assert (Hget : getchar formula (len pre) = Return c)
      by (rewrite Hf; apply getchar_app).
    destruct (is_ident c) eqn:Hc.
    + destruct (ident_span rest) as (run & rest' & -> & Hrun & Hrest').
      rewrite (rewrite_body_ident fuel0 vars formula (len pre) acc c
                 (c :: run) (len (pre ++ c :: run)) Hget Hc).
      * cbn [mbind outcome_bind].
        assert (Hslice : slice formula (len pre) (len (pre ++ c :: run))
                         = c :: run).
        { rewrite Hf, len_app.
          change (pre ++ c :: run ++ rest')
            with (pre ++ (c :: run) ++ rest').
          apply slice_mid. }
        rewrite Hslice.
        etrans; [apply (IH rest' (pre ++ c :: run)) |].
        -- simpl in Hn. rewrite length_app in Hn. lia.
        -- rewrite Hf. by rewrite <- app_assoc.
        -- simpl in Hfuel. rewrite length_app in Hfuel. lia.
        -- rewrite rewrite_spec_run by done. cbn [emit].
           repeat case_match; try congruence; by rewrite <- !app_assoc.
      * rewrite <- (len_snoc pre c).
        etrans; [apply (run_loop formula run rest' Hrun Hrest'
                          (pre ++ [c]) [c] fuel0) |].
        -- rewrite Hf. by rewrite <- !app_assoc.
        -- rewrite Hf in Hfuel0. rewrite !length_app in Hfuel0.
           simpl in Hfuel0. rewrite length_app in Hfuel0. lia.
        -- cbn [app]. do 2 f_equal. rewrite !len_app, !len_cons.
           change (len []) with 0%Z. lia.
    + rewrite (rewrite_body_other fuel0 vars formula (len pre) acc c Hget Hc).
      cbn [mbind outcome_bind]. rewrite <- (len_snoc pre c).
      etrans; [apply (IH rest (pre ++ [c])) |].
      * simpl in Hn. lia.
      * rewrite Hf. by rewrite <- app_assoc.
      * simpl in Hfuel. lia.
      * rewrite rewrite_spec_other by done. by rewrite <- app_assoc.
Qed.

(** With more fuel than the formula has characters, the two loops of the
    code compute the rewriting that the specification describes. *)
Lemma rewrite_formula_spec (fuel : nat) (vars : gmap str str)
    (formula : str) :
  (length formula < fuel)%nat ->
  rewrite_formula fuel vars formula = Return (rewrite_spec vars formula).
Proof.
  intros Hfuel. unfold rewrite_formula.
  apply bind_Return. eexists. split.
  - by apply (rewrite_loop fuel vars formula Hfuel (length formula)
              formula [] [] fuel).
  - done.
Qed.

(** The replacement loop over the keys of [varMap] is the sequence of the
    eight replacements. *)
Lemma apply_varMap_spec (newFormula : str) :
  apply_varMap newFormula = Return (apply_replacements newFormula).
Proof. reflexivity. Qed.

(** ** The tokens of a formula *)

(** Written back without a table, the tokens give the formula. *)
Lemma tokens_text (formula : str) : rewrite_spec ∅ formula = formula.
Proof.
  unfold rewrite_spec. induction formula as [|c rest IH]; [done|].
  rewrite tokens_cons. destruct (is_ident c).
  - destruct (tokens rest) as [|[run|d] ts]; cbn [map concat emit] in *.
    + by rewrite <- IH.
    + rewrite lookup_empty in *. cbn [app]. by rewrite <- IH.
    + by rewrite <- IH.
  - cbn [map concat emit app]. by rewrite IH.
Qed.

(** An identifier token is a non-empty run of identifier characters, any
    other token is a character that is not one. *)
Lemma tokens_shape (formula : str) :
  Forall (fun t => match t with
                   | Ident run =>
                       run <> [] /\ Forall (fun c => is_ident c = true) run
                   | Other c => is_ident c = false
                   end) (tokens formula).
Proof.
  induction formula as [|c rest IH]; [constructor|].
  rewrite tokens_cons. destruct (is_ident c) eqn:Hc.
  - destruct (tokens rest) as [|[run|d] ts].
    + repeat constructor; done.
    + apply Forall_cons in IH as [Hhead Hts]. cbn beta iota in Hhead.
      destruct Hhead as [_ Hrun].
      constructor; [|done]. split; [done | by constructor].
    + constructor; [|done]. split; [done | by repeat constructor].
  - by constructor.
Qed.

(** The runs are maximal: no two identifier tokens are neighbours. *)
Lemma tokens_maximal (formula : str) (l1 l2 : list token) (r1 r2 : str) :
  tokens formula <> l1 ++ Ident r1 :: Ident r2 :: l2.
Proof.
  revert l1 r1. induction formula as [|c rest IH]; intros l1 r1.
  - by destruct l1.
  - rewrite tokens_cons. destruct (is_ident c).
    + destruct (tokens rest) as [|[run|d] ts] eqn:E.
      * destruct l1 as [|? [|? ?]]; cbn [app]; intros [=].
      * destruct l1 as [|t l1]; cbn [app].
        -- intros [= <- ->]. by apply (IH [] run).
        -- intros [= <- ->]. by apply (IH (Ident run :: l1) r1).
      * destruct l1 as [|t l1]; cbn [app].
        -- intros [= <- [=]].
        -- intros [= <- H]. by apply (IH l1 r1).
    + destruct l1 as [|t l1]; cbn [app].
      * intros [=].
      * intros [= <- H]. by apply (IH l1 r1).
Qed.

(** ** The alias table of a metric *)

(** The last entry with a given alias decides its name. *)
Lemma bind_aliases_lookup (entries : list AliasEntry) (vars : gmap str str)
    (a : str) :
  bind_aliases entries vars !! a
  = match List.find (fun e => str_eqb (Alias e) a) (rev entries) with
    | Some e => Some (Name e)
    | None => vars !! a
    end.
Proof.
  induction entries as [|e entries IH] using rev_ind; [done|].
  unfold bind_aliases in *. rewrite fold_left_app, rev_unit.
  cbn [fold_left List.find].
  destruct (str_eqb (Alias e) a) eqn:E.
  - apply str_eqb_eq in E as <-. apply lookup_insert_eq.
  - apply str_eqb_neq in E. by rewrite lookup_insert_ne.
Qed.

(** The table is made from the entries of the metric alone: a
    [Constants] entry goes before an [Events] entry with the same alias,
    and an alias of neither list is not in the table. *)
Lemma alias_table_lookup (m : PerfmonMetric) (a : str) :
  alias_table m !! a
  = match List.find (fun e => str_eqb (Alias e) a) (rev (Constants m)) with
    | Some e => Some (Name e)
    | None =>
        match List.find (fun e => str_eqb (Alias e) a) (rev (Events m)) with
        | Some e => Some (Name e)
        | None => None
        end
    end.
Proof.
  unfold alias_table. rewrite !bind_aliases_lookup. by rewrite lookup_empty.
Qed.

(** ** One metric *)

(** One iteration of the loop over the metrics: the table is emptied and
    filled from the metric, and the translated entry is appended. *)
Lemma translate_metric_eq (fuel : nat)
    (st : gmap str str * list (dict str)) (m : PerfmonMetric) :
  (length (Formula m) < fuel)%nat ->
  translate_metric fuel st m
  = Return (alias_table m, snd st ++ [translated m]).
Proof.
  intros Hfuel. unfold translate_metric. cbv zeta. unfold clear.
  fold (alias_table m).
  rewrite rewrite_formula_spec by done. cbn [mbind outcome_bind].
  rewrite apply_varMap_spec. reflexivity.
Qed.

(** C1. With more fuel than the formula has characters, the iteration for
    a metric appends the entry whose expression is the formula with every
    maximal run of alphabetic characters and underscores that is a key of
    the alias table replaced by its name in square brackets, the other
    runs and characters copied, and then the eight replacements applied
    one after the other, in the listed order, each to the string the
    previous one left. *)
Theorem translate_metric_spec (fuel : nat)
    (st : gmap str str * list (dict str)) (m : PerfmonMetric) :
  (length (Formula m) < fuel)%nat ->
  translate_metric fuel st m
  = Return (alias_table m,
            snd st ++
            [[(lit "name", LegacyName m);
              (lit "expression",
               apply_replacements
                 (rewrite_spec (alias_table m) (Formula m)))]]).
Proof. apply translate_metric_eq. Qed.

Lemma translate_metric_spec_witness :
  (length (Formula metric_a) < 6)%nat
  /\ translate_metric 6 (∅, []) metric_a
     = Return (alias_table metric_a,
               [[(lit "name", lit "metric_a");
                 (lit "expression", lit "[EVT_A] * 2")]]).
Proof.
  assert (H : (length (Formula metric_a) < 6)%nat) by (simpl; lia).
  split; [exact H|].
  etrans; [apply (translate_metric_spec 6 (∅, []) metric_a H) | reflexivity].
Defined.

(** ** All metrics of a document *)

Lemma metrics_loop (fuel : nat) (metrics : list PerfmonMetric)
    (st : gmap str str * list (dict str)) :
  Forall (fun m => (length (Formula m) < fuel)%nat) metrics ->
  exists vars,
    for_each metrics (translate_metric fuel) st
    = Return (vars, snd st ++ (translated <$> metrics)).
Proof.
  intros Hfuel. revert st.
  induction Hfuel as [|m metrics Hm _ IH]; intros st.
  - exists (fst st). cbn. rewrite app_nil_r. by destruct st.
  - cbn [for_each]. rewrite translate_metric_eq by done.
    cbn [mbind outcome_bind].
    match goal with
    | |- context [for_each metrics _ ?s] => destruct (IH s) as (vars & ->)
    end.
    exists vars. cbn [snd fmap list_fmap]. by rewrite <- app_assoc.
Qed.

(** C5. The entry written for a metric is the translation of that metric
    with the table made from its own [Events] and [Constants]: two
    documents that have the same metric at a position get the same entry
    there, whatever their other metrics bind. *)
Theorem no_alias_leakage (fuel : nat) (doc1 doc2 : list PerfmonMetric)
    (i : nat) (m : PerfmonMetric) :
  Forall (fun m => (length (Formula m) < fuel)%nat) doc1 ->
  Forall (fun m => (length (Formula m) < fuel)%nat) doc2 ->
  doc1 !! i = Some m -> doc2 !! i = Some m ->
  exists vars1 result1 vars2 result2,
    for_each doc1 (translate_metric fuel) (∅, []) = Return (vars1, result1)
    /\ for_each doc2 (translate_metric fuel) (∅, []) = Return (vars2, result2)
    /\ result1 !! i = result2 !! i
    /\ result1 !! i
       = Some [(lit "name", LegacyName m);
               (lit "expression",
                apply_replacements
                  (rewrite_spec (alias_table m) (Formula m)))].
Proof.
  intros H1 H2 Hi1 Hi2.
  destruct (metrics_loop fuel doc1 (∅, []) H1) as (vars1 & Hr1).
  destruct (metrics_loop fuel doc2 (∅, []) H2) as (vars2 & Hr2).
  exists vars1, (translated <$> doc1), vars2, (translated <$> doc2).
  split; [exact Hr1|]. split; [exact Hr2|].
  rewrite !list_lookup_fmap, Hi1, Hi2. done.
Qed.

Lemma no_alias_leakage_witness :
  Forall (fun m => (length (Formula m) < 6)%nat) perfmon_1
  /\ Forall (fun m => (length (Formula m) < 6)%nat) perfmon_2
  /\ perfmon_1 !! 1 = Some metric_shared
  /\ perfmon_2 !! 1 = Some metric_shared
  /\ exists vars1 result1 vars2 result2,
       for_each perfmon_1 (translate_metric 6) (∅, []) = Return (vars1, result1)
       /\ for_each perfmon_2 (translate_metric 6) (∅, []) = Return (vars2, result2)
       /\ result1 !! 1 = result2 !! 1
       /\ result1 !! 1
          = Some [(lit "name", lit "shared");
                  (lit "expression", lit "[EVT_S] + b")].
Proof.
  assert (H1 : Forall (fun m => (length (Formula m) < 6)%nat) perfmon_1)
    by (repeat constructor; simpl; lia).
  assert (H2 : Forall (fun m => (length (Formula m) < 6)%nat) perfmon_2)
    by (repeat constructor; simpl; lia).
  split; [exact H1|]. split; [exact H2|].
  split; [reflexivity|]. split; [reflexivity|].
  destruct (no_alias_leakage 6 perfmon_1 perfmon_2 1 metric_shared H1 H2
              eq_refl eq_refl)
    as (vars1 & result1 & vars2 & result2 & Hr1 & Hr2 & Heq & Hi).
  exists vars1, result1, vars2, result2.
  split; [exact Hr1|]. split; [exact Hr2|]. split; [exact Heq|].
  etrans; [exact Hi | reflexivity].
Defined.


End Perfmon2PerfspectFacts.

(* ===================================================================== *)
(** * Further properties of [check_events.py] *)
(* ===================================================================== *)

Module CheckEventsMore.
Import CheckEvents PyFacts LoopFacts DictFacts CheckEventsFacts Samples Shapes.

(** ** The list of declared events *)

Lemma line_body_elem_of (event_list : list str) (line e : str) :
  e ∈ line_body event_list line
  <-> e ∈ event_list \/ (e <> [] /\ get_event line = Some e).
Proof.
  unfold line_body. destruct (get_event line) as [event|]; [|naive_solver].
  destruct (str_eqb event []) eqn:Hempty; simpl negb; cbn [andb].
  - apply str_eqb_eq in Hempty as ->. naive_solver.
  - apply str_eqb_neq in Hempty.
    destruct (count event_list event =? 0)%Z eqn:Hcount.
    + rewrite elem_of_app, list_elem_of_singleton. naive_solver.
    + assert (event ∈ event_list).
      { destruct (decide (event ∈ event_list)) as [|Hn]; [done|].
        apply count_zero in Hn. congruence. }
      naive_solver.
Qed.

Lemma line_body_NoDup (event_list : list str) (line : str) :
  NoDup event_list -> NoDup (line_body event_list line).
Proof.
  intros Hnd. unfold line_body. destruct (get_event line) as [event|]; [|done].
  destruct (negb (str_eqb event [])); cbn [andb]; [|done].
  destruct (count event_list event =? 0)%Z eqn:Hcount; [|done].
  apply count_zero in Hcount. apply NoDup_app. split; [done|].
  split; [| apply NoDup_singleton].
  intros x Hx ->%list_elem_of_singleton. done.
Qed.

Lemma fold_line_body_elem_of (lines : list str) (acc : list str) (e : str) :
  e ∈ fold_left line_body lines acc
  <-> e ∈ acc
      \/ (e <> [] /\ exists line, line ∈ lines /\ get_event line = Some e).
Proof.
  revert acc. induction lines as [|line lines IH]; intros acc; cbn [fold_left].
  - split; [by left|]. intros [?|(_ & line & ?%elem_of_nil & _)]; done.
  - rewrite IH, line_body_elem_of. split.
    + intros [[?|[? ?]]|(? & l & ? & ?)].
      * by left.
      * right. split; [done|]. exists line. split; [|done].
        apply elem_of_cons. by left.
      * right. split; [done|]. exists l. split; [|done].
        apply elem_of_cons. by right.
    + intros [?|(? & l & [->|?]%elem_of_cons & ?)].
      * left. by left.
      * left. by right.
      * right. split; [done|]. by exists l.
Qed.

Lemma fold_line_body_NoDup (lines : list str) (acc : list str) :
  NoDup acc -> NoDup (fold_left line_body lines acc).
Proof.
  revert acc. induction lines as [|line lines IH]; intros acc Hacc; [done|].
  cbn [fold_left]. by apply IH, line_body_NoDup.
Qed.

(** X1. The list of declared events holds no name twice, and holds
    exactly the non-empty names that [get_event] gives for some line. *)
Theorem declared_events_spec (lines : list str) :
  NoDup (declared_events lines)
  /\ forall e, e ∈ declared_events lines
               <-> e <> [] /\ exists line,
                     line ∈ lines /\ get_event line = Some e.
Proof.
  split.
  - apply fold_line_body_NoDup, NoDup_nil. done.
  - intros e. unfold declared_events. rewrite fold_line_body_elem_of.
    split; [intros [?%elem_of_nil|?]; done | by right].
Qed.

(** ** Both lists are free of duplicates *)

Lemma keys_dict_set_new {V} (d : dict V) (k : str) (v : V) :
  keys (dict_set d k v)
  = if contains (keys d) k then keys d else keys d ++ [k].
Proof.
  unfold keys. induction d as [|[k' v'] d IH]; [done|].
  cbn [dict_set map fst contains].
  destruct (str_eqb k' k) eqn:E; cbn [orb map fst]; [done|].
  rewrite IH. by destruct (contains (map fst d) k).
Qed.

Lemma dict_set_NoDup {V} (d : dict V) (k : str) (v : V) :
  NoDup (keys d) -> NoDup (keys (dict_set d k v)).
Proof.
  intros Hnd. rewrite keys_dict_set_new.
  destruct (contains (keys d) k) eqn:E; [done|].
  apply NoDup_app. split; [done|]. split; [| apply NoDup_singleton].
  intros x Hx ->%list_elem_of_singleton.
  apply contains_elem_of in Hx. congruence.
Qed.

Lemma scan_body_NoDup (s : scan) :
  NoDup (keys (used_events s)) -> NoDup (keys (used_events (scan_body s))).
Proof.
  intros Hnd. unfold scan_body. cbv zeta. cbn [used_events].
  match goal with |- context [negb ?b] => destruct b end; simpl negb;
    cbv iota; [done|].
  by apply dict_set_NoDup.
Qed.

Lemma used_events_NoDup (fuel : nat) (metrics : list (dict str))
    (st : dict (list str) * dict Z) :
  for_each metrics (scan_metric fuel) ([], []) = Return st ->
  NoDup (keys (snd st)).
Proof.
  apply (for_each_inv (fun st : dict (list str) * dict Z =>
                         NoDup (keys (snd st)))).
  - intros st0 m st' Hst0 _ (name & expression & s & _ & _ & Hs & ->)
      %scan_metric_Return.
    cbn [snd].
    eapply (while_pure_inv (fun s => NoDup (keys (used_events s))));
      [| | exact Hs]; [| exact Hst0].
    intros s' Hs' _. by apply scan_body_NoDup.
  - apply NoDup_nil. done.
Qed.

Lemma filter_NoDup (f : str -> bool) (l : list str) :
  NoDup l -> NoDup (List.filter f l).
Proof.
  induction l as [|x l IH]; [done|].
  intros [Hx Hl]%NoDup_cons. cbn [List.filter].
  destruct (f x); [|by apply IH].
  apply NoDup_cons. split; [|by apply IH].
  rewrite elem_of_filter. by intros [? _].
Qed.

(** X2. Neither list that the check returns holds a name twice. *)
Theorem check_lists_NoDup (fuel : nat) (metrics : list (dict str))
    (lines : list str) (missing unused : list str) :
  check fuel metrics lines = Return (missing, unused) ->
  NoDup missing /\ NoDup unused.
Proof.
  intros (st & Hst & -> & ->)%check_Return. split.
  - apply filter_NoDup. by eapply used_events_NoDup.
  - apply filter_NoDup. apply fold_line_body_NoDup, NoDup_nil. done.
Qed.

Lemma check_lists_NoDup_witness :
  check 4 two_metrics events_file = Return ([lit "C"], [lit "D"])
  /\ NoDup [lit "C"] /\ NoDup [lit "D"].
Proof.
  split; [reflexivity|].
  apply (check_lists_NoDup 4 two_metrics events_file); reflexivity.
Defined.

(** ** A metric object without a field *)

(** X3. A metric object that lacks [name], or has it and lacks
    [expression], ends the check with the [KeyError] of that key, once the
    metrics before it have been scanned. *)
Theorem check_missing_field (fuel : nat) (before after : list (dict str))
    (m : dict str) (lines : list str) (st : dict (list str) * dict Z) :
  for_each before (scan_metric fuel) ([], []) = Return st ->
  dict_get m (lit "name") = None
  \/ (is_Some (dict_get m (lit "name"))
      /\ dict_get m (lit "expression") = None) ->
  check fuel (before ++ m :: after) lines
  = Raise (KeyError (if dict_get m (lit "name")
                     then lit "expression" else lit "name")).
Proof.
  intros Hbefore Hm. unfold check. rewrite for_each_app, Hbefore.
  cbn [mbind outcome_bind for_each]. unfold scan_metric, getitem.
  destruct Hm as [-> | [[name ->] ->]]; reflexivity.
Qed.

Lemma check_missing_field_witness :
  for_each m1 (scan_metric 4) ([], [])
  = Return ([(lit "m1", [lit "A"; lit "B"; lit "const_X"])],
            [(lit "A", 1%Z); (lit "B", 1%Z)])
  /\ dict_get nameless (lit "name") = None
  /\ check 4 (m1 ++ nameless :: two_metrics) events_file
     = Raise (KeyError (lit "name")).
Proof.
  split; [reflexivity|]. split; [reflexivity|].
  apply (check_missing_field 4 m1 two_metrics nameless events_file
           ([(lit "m1", [lit "A"; lit "B"; lit "const_X"])],
            [(lit "A", 1%Z); (lit "B", 1%Z)]));
    [reflexivity | by left].
Defined.

(** ** Expressions whose brackets are closed *)

Lemma closed_after_close (x rest : str) :
  closed rest -> closed (x ++ "]"%char :: rest).
Proof.
  intros Hrest a b Hab. symmetry in Hab.
  apply app_eq_inv in Hab as [(k & _ & Hk) | (k & _ & Hk)].
  - destruct k as [|c k]; cbn [app] in Hk; [discriminate|].
    injection Hk as _ ->. by apply (Hrest k b).
  - destruct k as [|c k]; cbn [app] in Hk; [discriminate|].
    injection Hk as _ ->. apply elem_of_app. right. apply elem_of_cons.
    by left.
Qed.

Lemma bracketed_closed (segs : list (str * str)) (tail : str) :
  "["%char ∉ tail -> closed (bracketed segs tail).
Proof.
  intros Htail. induction segs as [|[pre tok] segs IH]; cbn [bracketed fold_right].
  - intros a b ->. exfalso. apply Htail, elem_of_app. right.
    apply elem_of_cons. by left.
  - cbn [fst snd].
    change (pre ++ "["%char :: tok ++ "]"%char :: fold_right
              (fun seg rest => fst seg ++ "["%char :: snd seg
                                 ++ "]"%char :: rest) tail segs)
      with (pre ++ ["["%char] ++ tok ++ "]"%char :: bracketed segs tail).
    rewrite 2!app_assoc. by apply closed_after_close.
Qed.

Lemma scan_formula_closed (fuel : nat) (expression : str) (used : dict Z) :
  closed expression -> (length expression < fuel)%nat ->
  exists s, scan_formula fuel expression used = Return s.
Proof.
  intros Hclosed Hfuel.
  destruct (scan_loop_closed (length expression) expression used []
              (le_n _) Hclosed) as (s & Hs).
  exists s.
  replace fuel with (S (length expression) + (fuel - S (length expression)))
    by lia.
  by apply scan_formula_more_fuel.
Qed.

(** X4. The check returns on every metrics document whose objects have
    both fields and whose expressions close every bracket they open,
    given more fuel than the longest expression has characters. *)
Theorem check_closed_returns (fuel : nat) (metrics : list (dict str))
    (lines : list str) :
  Forall (scannable fuel) metrics ->
  exists missing unused, check fuel metrics lines = Return (missing, unused).
Proof.
  intros Hall.
  assert (Hloop : forall st, exists st',
             for_each metrics (scan_metric fuel) st = Return st').
  { induction Hall as [|m metrics (name & e & Hn & He & Hc & Hf) _ IH];
      intros st; [by eexists|].
    cbn [for_each]. unfold scan_metric, getitem. rewrite Hn, He.
    cbn [mbind outcome_bind].
    destruct (scan_formula_closed fuel e (snd st) Hc Hf) as (s & ->).
    cbn [mbind outcome_bind]. apply IH. }
  destruct (Hloop ([], [])) as (st & Hst).
  unfold check. rewrite Hst. by eexists _, _.
Qed.

Lemma check_closed_returns_witness :
  Forall (scannable 25) two_metrics
  /\ exists missing unused,
       check 25 two_metrics events_file = Return (missing, unused).
Proof.
  assert (H : Forall (scannable 25) two_metrics).
  { repeat constructor.
    - exists (lit "m1"), (lit "[A] + [B:c1] - [const_X]").
      split; [reflexivity|]. split; [reflexivity|]. split; [|simpl; lia].
      apply (bracketed_closed
               [([], lit "A"); (lit " + ", lit "B:c1");
                (lit " - ", lit "const_X")] []).
      apply not_elem_of_nil.
    - exists (lit "m2"), (lit "[A] / [C]").
      split; [reflexivity|]. split; [reflexivity|]. split; [|simpl; lia].
      apply (bracketed_closed [([], lit "A"); (lit " / ", lit "C")] []).
      apply not_elem_of_nil. }
  split; [exact H|].
  apply (check_closed_returns 25 two_metrics events_file H).
Defined.

(** ** The names a scan collects *)

Lemma scan_loop_bracketed (tail : str) (segs : list (str * str)) :
  Forall (fun seg => "["%char ∉ fst seg /\ "]"%char ∉ fst seg
                     /\ "]"%char ∉ snd seg) segs ->
  "["%char ∉ tail ->
  forall (used : dict Z) (evs : list str) (fuel : nat),
    (length segs < fuel)%nat ->
    exists s,
      scan_loop fuel {| formula := bracketed segs tail;
                        start_bracket := find (bracketed segs tail) (lit "[");
                        used_events := used; m_events := evs |} = Return s
      /\ m_events s = evs ++ map (fun seg => strip_modifier (snd seg)) segs
      /\ formula s = tail.
Proof.
  intros Hsegs Htail.
  induction Hsegs as [|[pre tok] segs (Hp1 & Hp2 & Ht) _ IH];
    intros used evs [|fuel] Hfuel; try (simpl in Hfuel; lia).
  - eexists. rewrite scan_loop_stop.
    + split; [done|]. cbn [m_events formula map bracketed fold_right].
      by rewrite app_nil_r.
    + unfold scan_cond. cbn [start_bracket bracketed fold_right].
      change (lit "[") with ["["%char]. by rewrite find_absent.
  - cbn [fst snd] in Hp1, Hp2, Ht.
    rewrite scan_loop_step.
    2:{ unfold scan_cond. cbn [start_bracket bracketed fold_right fst snd].
        change (lit "[") with ["["%char]. rewrite find_first by done.
        apply Z.geb_le, len_nonneg. }
    match goal with |- context [scan_body ?s0] =>
      pose proof (scan_body_paired s0 pre tok (bracketed segs tail)
                    eq_refl Hp1 Hp2 Ht eq_refl) as (Hev & Hform & _);
      assert (Hstart : start_bracket (scan_body s0)
                       = find (formula (scan_body s0)) (lit "["))
        by reflexivity;
      destruct (scan_body s0) as [f' b' u' e'] end.
    cbn [formula start_bracket m_events] in Hev, Hform, Hstart.
    subst f' b' e'.
    destruct (IH u' (evs ++ [strip_modifier tok]) fuel) as (s & Hs & Hm & Hf);
      [simpl in Hfuel; lia|].
    exists s. split; [exact Hs|]. split; [|exact Hf].
    rewrite Hm. cbn [map snd]. by rewrite <- app_assoc.
Qed.

(** X5. On an expression made of bracketed names with text between them
    (no bracket in the text, no "]" in a name) the scan returns, with one
    round of fuel per name and one more, and has collected the names in
    order, each after the colon test; what is left of the formula is the
    text after the last name. *)
Theorem scan_formula_bracketed (fuel : nat) (segs : list (str * str))
    (tail : str) (used : dict Z) :
  Forall (fun seg => "["%char ∉ fst seg /\ "]"%char ∉ fst seg
                     /\ "]"%char ∉ snd seg) segs ->
  "["%char ∉ tail ->
  (length segs < fuel)%nat ->
  exists s,
    scan_formula fuel (bracketed segs tail) used = Return s
    /\ m_events s = map (fun seg => strip_modifier (snd seg)) segs
    /\ formula s = tail.
Proof.
  intros Hsegs Htail Hfuel.
  destruct (scan_loop_bracketed tail segs Hsegs Htail used [] fuel Hfuel)
    as (s & Hs & Hm & Hf).
  by exists s.
Qed.

Lemma scan_formula_bracketed_witness :
  Forall (fun seg => "["%char ∉ fst seg /\ "]"%char ∉ fst seg
                     /\ "]"%char ∉ snd seg)
    [([], lit "A"); (lit " / ", lit "C:u")]
  /\ "["%char ∉ lit " * 100"
  /\ (2 < 3)%nat
  /\ exists s,
       scan_formula 3 (lit "[A] / [C:u] * 100") [] = Return s
       /\ m_events s = [lit "A"; lit "C"]
       /\ formula s = lit " * 100".
Proof.
  assert (Hno : forall (c : ascii) (l : str),
             forallb (fun d => negb (chr_eqb d c)) l = true -> c ∉ l).
  { intros c l. induction l as [|d l IH]; cbn [forallb].
    - intros _. apply not_elem_of_nil.
    - intros [Hd Hl]%andb_true_iff. apply not_elem_of_cons.
      split; [|by apply IH].
      apply negb_true_iff, chr_eqb_neq in Hd. congruence. }
  assert (H1 : Forall (fun seg => "["%char ∉ fst seg /\ "]"%char ∉ fst seg
                                  /\ "]"%char ∉ snd seg)
                 [([], lit "A"); (lit " / ", lit "C:u")]).
  { repeat constructor; apply Hno; reflexivity. }
  assert (H2 : "["%char ∉ lit " * 100") by (apply Hno; reflexivity).
  assert (H3 : (2 < 3)%nat) by lia.
  split; [exact H1|]. split; [exact H2|]. split; [exact H3|].
  apply (scan_formula_bracketed 3 [([], lit "A"); (lit " / ", lit "C:u")]
           (lit " * 100") [] H1 H2 H3).
Defined.

Lemma scan_formula_keys (fuel : nat) (expression : str)
    (used : dict Z) (s : scan) :
  scan_formula fuel expression used = Return s ->
  forall e, e ∈ keys (used_events s)
            <-> e ∈ keys used
                \/ (e ∈ m_events s /\ startswith e (lit "const_") = false).
Proof.
  intros Hs.
  eapply (while_pure_inv
            (fun s => forall e,
               e ∈ keys (used_events s)
               <-> e ∈ keys used
                   \/ (e ∈ m_events s
                       /\ startswith e (lit "const_") = false)));
    [| | exact Hs].
  - intros s' Hs' _ e. unfold scan_body. cbv zeta.
    cbn [used_events m_events].
    match goal with |- context [startswith ?ev (lit "const_")] =>
      set (event := ev); destruct (startswith event (lit "const_")) eqn:E end;
      simpl negb; cbv iota.
    + rewrite Hs', elem_of_app, list_elem_of_singleton.
      split; [naive_solver|].
      intros [?|[[?| ->] ?]]; [by left | by right | congruence].
    + rewrite count_event_keys, Hs', elem_of_app, list_elem_of_singleton.
      naive_solver.
  - intros e. cbn [used_events m_events]. split; [by left|].
    by intros [?|[?%elem_of_nil _]].
Qed.

(** X6. After the scan of an expression, the counted names are the ones
    counted before together with the collected names that do not start
    with ["const_"]. *)
Theorem scan_formula_used_events (fuel : nat) (expression : str)
    (used : dict Z) (s : scan) :
  scan_formula fuel expression used = Return s ->
  forall e, e ∈ keys (used_events s)
            <-> e ∈ keys used
                \/ (e ∈ m_events s /\ startswith e (lit "const_") = false).
Proof.
  intros Hs.
  eapply (while_pure_inv
            (fun s => forall e,
               e ∈ keys (used_events s)
               <-> e ∈ keys used
                   \/ (e ∈ m_events s
                       /\ startswith e (lit "const_") = false)));
    [| | exact Hs].
  - intros s' Hs' _ e. unfold scan_body. cbv zeta.
    cbn [used_events m_events].
    match goal with |- context [startswith ?ev (lit "const_")] =>
      set (event := ev); destruct (startswith event (lit "const_")) eqn:E end;
      simpl negb; cbv iota.
    + rewrite Hs', elem_of_app, list_elem_of_singleton.
      split; [naive_solver|].
      intros [?|[[?| ->] ?]]; [by left | by right | congruence].
    + rewrite count_event_keys, Hs', elem_of_app, list_elem_of_singleton.
      naive_solver.
  - intros e. cbn [used_events m_events]. split; [by left|].
    by intros [?|[?%elem_of_nil _]].
Qed.

Lemma scan_formula_used_events_witness :
  scan_formula 4 (lit "[A] + [B:c1] - [const_X]") [(lit "Z", 2%Z)]
  = Return {| formula := []; start_bracket := (-1)%Z;
              used_events := [(lit "Z", 2%Z); (lit "A", 1%Z); (lit "B", 1%Z)];
              m_events := [lit "A"; lit "B"; lit "const_X"] |}
  /\ (lit "B" ∈ [lit "Z"; lit "A"; lit "B"]
      <-> lit "B" ∈ [lit "Z"]
          \/ (lit "B" ∈ [lit "A"; lit "B"; lit "const_X"]
              /\ startswith (lit "B") (lit "const_") = false)).
Proof.
  split; [reflexivity|].
  apply (scan_formula_used_events 4 (lit "[A] + [B:c1] - [const_X]")
           [(lit "Z", 2%Z)]
           {| formula := []; start_bracket := (-1)%Z;
              used_events := [(lit "Z", 2%Z); (lit "A", 1%Z);
                              (lit "B", 1%Z)];
              m_events := [lit "A"; lit "B"; lit "const_X"] |}).
  reflexivity.
Defined.

(** ** What the two lists hold *)

(** The names collected do not depend on what was counted before. *)
Lemma scan_loop_any_used (fuel : nat) (s1 s2 r1 : scan) :
  formula s1 = formula s2 -> start_bracket s1 = start_bracket s2 ->
  m_events s1 = m_events s2 ->
  scan_loop fuel s1 = Return r1 ->
  exists r2, scan_loop fuel s2 = Return r2 /\ m_events r2 = m_events r1.
Proof.
  revert s1 s2. induction fuel as [|fuel IH]; intros s1 s2 Hf Hb He; [done|].
  unfold scan_loop in *. cbn [while mbind outcome_bind].
  unfold scan_cond at 1 3. rewrite <- Hb.
  destruct (start_bracket s1 >=? 0)%Z.
  - apply IH; unfold scan_body; cbv zeta;
      cbn [formula start_bracket m_events]; by rewrite ?Hf, ?Hb, ?He.
  - intros [= <-]. by exists s2.
Qed.

Lemma scan_formula_any_used (fuel : nat) (expression : str)
    (used used' : dict Z) (s : scan) :
  scan_formula fuel expression used = Return s ->
  exists s', scan_formula fuel expression used' = Return s'
             /\ m_events s' = m_events s.
Proof. unfold scan_formula. by apply scan_loop_any_used. Qed.

Lemma metrics_keys (fuel : nat) (metrics : list (dict str))
    (st0 st : dict (list str) * dict Z) :
  for_each metrics (scan_metric fuel) st0 = Return st ->
  forall e, e ∈ keys (snd st)
            <-> e ∈ keys (snd st0)
                \/ (referenced fuel metrics e
                    /\ startswith e (lit "const_") = false).
Proof.
  revert st0. induction metrics as [|m metrics IH]; intros st0; cbn [for_each].
  - intros [= <-] e. split; [by left|].
    intros [?|[(? & ? & ? & ?%elem_of_nil & _) _]]; done.
  - intros (st1 & Hm & Hrest)%bind_Return e.
    apply scan_metric_Return
      in Hm as (name & expression & s & _ & Hexpr & Hs & ->).
    unfold getitem in Hexpr.
    destruct (dict_get m (lit "expression")) as [x|] eqn:Hx; [|done].
    injection Hexpr as ->.
    rewrite (IH _ Hrest e). cbn [snd].
    rewrite (scan_formula_keys _ _ _ _ Hs e).
    destruct (scan_formula_any_used _ _ _ [] _ Hs) as (s' & Hs' & Hev).
    split.
    + intros [[?|[? ?]]|[(m' & x' & s0 & ? & ? & ? & ?) ?]].
      * by left.
      * right. split; [|done]. exists m, expression, s'.
        split; [apply elem_of_cons; by left|]. by rewrite Hev.
      * right. split; [|done]. exists m', x', s0.
        split; [apply elem_of_cons; by right|]. done.
    + intros [?|[(m' & x' & s0 & [->|?]%elem_of_cons & Hx' & Hs0 & ?) ?]].
      * left. by left.
      * left. right. split; [|done].
        rewrite Hx in Hx'. injection Hx' as <-.
        rewrite Hs' in Hs0. injection Hs0 as <-. by rewrite <- Hev.
      * right. split; [|done]. by exists m', x', s0.
Qed.

(** X7. A returned missing event is a name that some expression refers
    to, that does not start with ["const_"] and that is not declared; a
    returned unused event is a declared name that no expression refers to,
    or only as a ["const_"] name. *)
Theorem check_lists_spec (fuel : nat) (metrics : list (dict str))
    (lines : list str) (missing unused : list str) :
  check fuel metrics lines = Return (missing, unused) ->
  forall e,
    (e ∈ missing
     <-> (referenced fuel metrics e /\ startswith e (lit "const_") = false)
         /\ e ∉ declared_events lines)
    /\ (e ∈ unused
        <-> e ∈ declared_events lines
            /\ ~ (referenced fuel metrics e
                  /\ startswith e (lit "const_") = false)).
Proof.
  intros (st & Hst & -> & ->)%check_Return e.
  pose proof (metrics_keys _ _ _ _ Hst e) as Hkeys. cbn [snd keys map] in Hkeys.
  assert (Hused : e ∈ keys (snd st)
                  <-> referenced fuel metrics e
                      /\ startswith e (lit "const_") = false).
  { rewrite Hkeys. split; [by intros [?%elem_of_nil|?] | by right]. }
  unfold missing_of, unused_of. rewrite !elem_of_filter, !negb_true_iff.
  rewrite <- Hused. split.
  - split.
    + intros [? Hc]. split; [done|]. intros ?%contains_elem_of. congruence.
    + intros [? Hn]. split; [done|]. apply not_true_iff_false.
      by rewrite contains_elem_of.
  - split.
    + intros [? Hc]. split; [done|]. intros ?%contains_elem_of. congruence.
    + intros [? Hn]. split; [done|]. apply not_true_iff_false.
      by rewrite contains_elem_of.
Qed.

Lemma check_lists_spec_witness :
  check 4 two_metrics events_file = Return ([lit "C"], [lit "D"])
  /\ (lit "C" ∈ [lit "C"]
      <-> (referenced 4 two_metrics (lit "C")
           /\ startswith (lit "C") (lit "const_") = false)
          /\ lit "C" ∉ declared_events events_file)
  /\ (lit "C" ∈ [lit "D"]
      <-> lit "C" ∈ declared_events events_file
          /\ ~ (referenced 4 two_metrics (lit "C")
                /\ startswith (lit "C") (lit "const_") = false)).
Proof.
  split; [reflexivity|].
  apply (check_lists_spec 4 two_metrics events_file [lit "C"] [lit "D"]).
  reflexivity.
Defined.

(** ** Lines of the events file *)

Lemma elem_of_slice_from (s : str) (i : Z) (c : ascii) :
  c ∈ slice_from s i -> c ∈ s.
Proof.
  unfold slice_from. intros H. eapply elem_of_sublist; [exact H|].
  apply sublist_drop.
Qed.

Lemma elem_of_slice (s : str) (lo hi : Z) (c : ascii) :
  c ∈ slice s lo hi -> c ∈ s.
Proof.
  unfold slice. intros H. eapply elem_of_sublist; [exact H|].
  etrans; [apply sublist_take | apply sublist_drop].
Qed.

Lemma elem_of_strip_modifier (x : str) (c : ascii) :
  c ∈ strip_modifier x -> c ∈ x.
Proof.
  unfold strip_modifier. destruct (find x (lit ":") >? 0)%Z; [|done].
  apply elem_of_slice.
Qed.

Lemma slice_to_quote (x : str) : "'"%char ∉ slice x 0 (find x (lit "'")).
Proof.
  change (lit "'") with ["'"%char].
  destruct (find_chr_cases x "'"%char)
    as [[_ Hnot] | (pre & rest & -> & Hpre & ->)].
  - intros H. apply elem_of_slice in H. done.
  - by rewrite slice_prefix.
Qed.

(** X8. The name that [get_event] takes from a line with ["name="] never
    has a single quote in it, whether the line has both quotes, one or
    none. *)
Theorem get_event_no_quote (line x : str) :
  (0 <= find line (lit "name="))%Z ->
  get_event line = Some x ->
  "'"%char ∉ x.
Proof.
  intros Hname. unfold get_event.
  destruct (negb (str_eqb line []) && negb (startswith line (lit "#")));
    [|done].
  destruct (Z.geb_spec (find line (lit "name=")) 0); [|lia].
  intros [= <-] Hq. apply elem_of_strip_modifier in Hq.
  by apply slice_to_quote in Hq.
Qed.

Lemma get_event_no_quote_witness :
  (0 <= find (lit "cpu/event=0x3c,name='B:c1'/," ++ nl) (lit "name="))%Z
  /\ get_event (lit "cpu/event=0x3c,name='B:c1'/," ++ nl) = Some (lit "B")
  /\ "'"%char ∉ lit "B".
Proof.
  assert (H : (0 <= find (lit "cpu/event=0x3c,name='B:c1'/," ++ nl)
                    (lit "name="))%Z) by (vm_compute; discriminate).
  split; [exact H|]. split; [reflexivity|].
  apply (get_event_no_quote (lit "cpu/event=0x3c,name='B:c1'/," ++ nl)
           (lit "B") H).
  reflexivity.
Defined.

Lemma slice_drop_last_two (e : str) (a b : ascii) :
  slice (e ++ [a; b]) 0 (-2) = e.
Proof.
  unfold slice, slice_bound. rewrite len_app.
  change (len [a; b]) with 2%Z. pose proof (len_nonneg e).
  cbn [Z.ltb Z.compare]. rewrite Z.min_l by lia.
  rewrite Z.max_l by lia. cbn [Z.to_nat drop skipn].
  replace (-2 + (len e + 2) - 0)%Z with (len e) by lia.
  unfold len. rewrite Nat2Z.id. apply take_app_length.
Qed.

(** X9. A line without ["name="] that does not start with "#" gives all
    of its characters but the last two, whatever those two are. *)
Theorem get_event_bare_line (e : str) (a b : ascii) :
  startswith (e ++ [a; b]) (lit "#") = false ->
  (find (e ++ [a; b]) (lit "name=") < 0)%Z ->
  get_event (e ++ [a; b]) = Some e.
Proof.
  intros Hhash Hname.
  rewrite get_event_bare; [| by destruct e | done | done].
  by rewrite slice_drop_last_two.
Qed.

Lemma get_event_bare_line_witness :
  startswith (lit "cpu-cycles" ++ [","%char; "010"%char]) (lit "#") = false
  /\ (find (lit "cpu-cycles" ++ [","%char; "010"%char]) (lit "name=") < 0)%Z
  /\ get_event (lit "cpu-cycles" ++ [","%char; "010"%char])
     = Some (lit "cpu-cycles").
Proof.
  split; [reflexivity|]. split; [reflexivity|].
  apply (get_event_bare_line (lit "cpu-cycles")); reflexivity.
Defined.

Lemma startswith_short (s p : str) :
  (length s < length p)%nat -> startswith s p = false.
Proof.
  revert s. induction p as [|c p IH]; intros s Hlen; [simpl in Hlen; lia|].
  destruct s as [|d s]; [done|]. cbn [startswith].
  rewrite IH by (simpl in Hlen; lia). apply andb_false_r.
Qed.

Lemma find_from_short (s p : str) (i : Z) :
  (length s < length p)%nat -> find_from s p i = (-1)%Z.
Proof.
  revert i. induction s as [|d s IH]; intros i Hlen; cbn [find_from];
    rewrite startswith_short by done; [done|].
  apply IH. simpl in Hlen. lia.
Qed.

(** X10. A line that is empty, a line that starts with "#" and a line of
    at most two characters leave the list of declared events as it is. *)
Theorem line_declares_nothing (event_list : list str) (line : str) :
  line = [] \/ startswith line (lit "#") = true \/ (length line <= 2)%nat ->
  line_body event_list line = event_list.
Proof.
  intros H. unfold line_body.
  assert (Hev : get_event line = None \/ get_event line = Some []).
  { unfold get_event. destruct (str_eqb line []) eqn:Hempty; [by left|].
    destruct (startswith line (lit "#")) eqn:Hhash; [by left|].
    destruct H as [-> | [? | Hlen]]; [done | done |].
    right. simpl negb. cbn [andb]. unfold find.
    rewrite find_from_short by (simpl; lia). cbn [Z.geb Z.compare].
    do 2 f_equal. unfold slice, slice_bound. cbn [Z.ltb Z.compare].
    assert (len line <= 2)%Z by (unfold len; lia).
    pose proof (len_nonneg line).
    rewrite Z.min_l, Z.max_r by lia. done. }
  destruct Hev as [-> | ->]; [done|]. by rewrite str_eqb_refl.
Qed.

Lemma line_declares_nothing_witness :
  (lit "# core events" ++ nl = []
   \/ startswith (lit "# core events" ++ nl) (lit "#") = true
   \/ (length (lit "# core events" ++ nl) <= 2)%nat)
  /\ line_body [lit "A"] (lit "# core events" ++ nl) = [lit "A"].
Proof.
  assert (H : lit "# core events" ++ nl = []
              \/ startswith (lit "# core events" ++ nl) (lit "#") = true
              \/ (length (lit "# core events" ++ nl) <= 2)%nat)
    by (right; left; reflexivity).
  split; [exact H|].
  apply (line_declares_nothing [lit "A"] (lit "# core events" ++ nl) H).
Defined.

End CheckEventsMore.

(* ===================================================================== *)
(** * Further properties of [perfmon2perfspect.py] *)
(* ===================================================================== *)

Module Perfmon2PerfspectMore.
Import Perfmon2Perfspect PyFacts LoopFacts DictFacts Perfmon2PerfspectFacts.
Import Samples Shapes.

(** ** The alias table *)

(** X11. In the table that an iteration fills, an alias bound in
    [Constants] has the name of its last [Constants] entry; an alias bound
    only in [Events] has the name of its last [Events] entry; any other
    alias is absent, whatever the table held before. *)
Theorem alias_lookup_order (m : PerfmonMetric) (before : gmap str str)
    (a : str) :
  bind_aliases (Constants m) (bind_aliases (Events m) (clear before)) !! a
  = match List.find (fun e => str_eqb (Alias e) a) (rev (Constants m)) with
    | Some e => Some (Name e)
    | None =>
        match List.find (fun e => str_eqb (Alias e) a) (rev (Events m)) with
        | Some e => Some (Name e)
        | None => None
        end
    end.
Proof.
  rewrite !bind_aliases_lookup. unfold clear. by rewrite lookup_empty.
Qed.

(** ** Formulas that the rewriting leaves alone *)

Lemma rewrite_spec_unbound (table : gmap str str) (formula : str) :
  (forall run, Ident run ∈ tokens formula -> table !! run = None) ->
  rewrite_spec table formula = formula.
Proof.
  intros Hun. rewrite <- (tokens_text formula) at 2. unfold rewrite_spec.
  f_equal. apply map_ext_in. intros [run|c] Hin; [|done].
  apply list_elem_of_In in Hin. pose proof (Hun run Hin) as Hnone.
  trans run; [| symmetry]; cbn [emit];
    match goal with
    | |- match ?o with Some _ => _ | None => _ end = _ =>
        destruct o as [name|] eqn:E
    end; try done; exfalso;
    (assert (Some name = None) as Habs;
     [etrans; [symmetry; exact E | first [exact Hnone | apply lookup_empty]]
     | discriminate Habs]).
Qed.

(** X12. A formula none of whose identifier runs is a key of the table
    comes out of the two loops as it went in. *)
Theorem rewrite_formula_unbound (fuel : nat) (vars : gmap str str)
    (formula : str) :
  (length formula < fuel)%nat ->
  (forall run, Ident run ∈ tokens formula -> vars !! run = None) ->
  rewrite_formula fuel vars formula = Return formula.
Proof.
  intros Hfuel Hun. rewrite rewrite_formula_spec by done.
  by rewrite rewrite_spec_unbound.
Qed.

Lemma rewrite_formula_unbound_witness :
  (length (lit "min(x, 2)") < 10)%nat
  /\ (forall run, Ident run ∈ tokens (lit "min(x, 2)") ->
                  ({[ lit "a" := lit "EVT_A" ]} : gmap str str) !! run = None)
  /\ rewrite_formula 10 {[ lit "a" := lit "EVT_A" ]} (lit "min(x, 2)")
     = Return (lit "min(x, 2)").
Proof.
  assert (H1 : (length (lit "min(x, 2)") < 10)%nat) by (simpl; lia).
  assert (H2 : forall run, Ident run ∈ tokens (lit "min(x, 2)") ->
                 ({[ lit "a" := lit "EVT_A" ]} : gmap str str) !! run = None).
  { intros run Hin. vm_compute in Hin.
    repeat (apply elem_of_cons in Hin as [Hin|Hin];
            [try discriminate Hin; injection Hin as ->; reflexivity|]).
    by apply elem_of_nil in Hin. }
  split; [exact H1|]. split; [exact H2|].
  apply (rewrite_formula_unbound 10 _ (lit "min(x, 2)") H1 H2).
Defined.

(** ** Formulas that the replacements leave alone *)

Lemma replace_from_absent (old new s : str) (c : ascii) :
  c ∉ s -> replace_from (c :: old) new 0 s = s.
Proof.
  induction s as [|d s IH]; [done|].
  intros [Hd Hs]%not_elem_of_cons. cbn [replace_from startswith].
  assert (chr_eqb d c = false) as -> by (apply chr_eqb_neq; congruence).
  cbn [andb]. by rewrite IH.
Qed.

Lemma replace_absent (s old new : str) :
  match old with c :: _ => c ∉ s | [] => False end ->
  replace s old new = s.
Proof. destruct old as [|c old]; [done|]. apply replace_from_absent. Qed.

(** X13. A formula with no "[" and no "D" in it passes the loop of the
    eight replacements unchanged: every pattern starts with one of the
    two. *)
Theorem apply_varMap_untouched (newFormula : str) :
  "["%char ∉ newFormula -> "D"%char ∉ newFormula ->
  apply_varMap newFormula = Return newFormula.
Proof.
  intros Hbracket Hd. rewrite apply_varMap_spec.
  unfold apply_replacements, replacements. cbn [fold_left fst snd].
  repeat (rewrite (replace_absent newFormula);
          [| first [exact Hbracket | exact Hd]]).
  done.
Qed.

Lemma apply_varMap_untouched_witness :
  "["%char ∉ lit "a * 2" /\ "D"%char ∉ lit "a * 2"
  /\ apply_varMap (lit "a * 2") = Return (lit "a * 2").
Proof.
  assert (H1 : "["%char ∉ lit "a * 2").
  { intros H. by repeat (apply elem_of_cons in H as [H|H]; [done|]);
      apply elem_of_nil in H. }
  assert (H2 : "D"%char ∉ lit "a * 2").
  { intros H. by repeat (apply elem_of_cons in H as [H|H]; [done|]);
      apply elem_of_nil in H. }
  split; [exact H1|]. split; [exact H2|].
  apply (apply_varMap_untouched (lit "a * 2") H1 H2).
Defined.

(** ** The whole translation *)



(** ** The search for a metric *)

(** X15. The search stops at the first entry that has the wanted name or
    no name at all: it returns the entry in the first case and raises
    [KeyError] in the second, and the entries after it are not looked
    at. *)
Theorem find_metric_first (before after : list (dict str)) (a : dict str)
    (name : str) :
  Forall (fun b => exists n, dict_get b (lit "name") = Some n /\ n <> name)
    before ->
  dict_get a (lit "name") = None \/ dict_get a (lit "name") = Some name ->
  find_metric (before ++ a :: after) name
  = if dict_get a (lit "name") then Return (Some a)
    else Raise (KeyError (lit "name")).
Proof.
  intros Hbefore Ha. induction Hbefore as [|b before (n & Hn & Hne) _ IH].
  - cbn [app find_metric]. unfold getitem.
    destruct Ha as [-> | ->]; [done|].
    cbn [mbind outcome_bind]. by rewrite str_eqb_refl.
  - cbn [app find_metric]. unfold getitem at 1. rewrite Hn.
    cbn [mbind outcome_bind]. by apply str_eqb_neq in Hne as ->.
Qed.

Lemma find_metric_first_witness :
  Forall (fun b => exists n, dict_get b (lit "name") = Some n
                             /\ n <> lit "m2")
    [metric "m1" "[X]"]
  /\ (dict_get (metric "m2" "[Y]") (lit "name") = None
      \/ dict_get (metric "m2" "[Y]") (lit "name") = Some (lit "m2"))
  /\ find_metric ([metric "m1" "[X]"] ++ metric "m2" "[Y]" :: [nameless])
       (lit "m2")
     = Return (Some (metric "m2" "[Y]")).
Proof.
  assert (H1 : Forall (fun b => exists n, dict_get b (lit "name") = Some n
                                          /\ n <> lit "m2")
                 [metric "m1" "[X]"]).
  { repeat constructor. exists (lit "m1"). split; [reflexivity|discriminate]. }
  assert (H2 : dict_get (metric "m2" "[Y]") (lit "name") = None
               \/ dict_get (metric "m2" "[Y]") (lit "name")
                  = Some (lit "m2")) by (right; reflexivity).
  split; [exact H1|]. split; [exact H2|].
  apply (find_metric_first [metric "m1" "[X]"] [nameless]
           (metric "m2" "[Y]") (lit "m2") H1 H2).
Defined.

(** ** Reconciliation as a map *)

Lemma reconcile_fmap (allMetrics usedMetrics acc : list (dict str)) :
  Forall (fun a => is_Some (dict_get a (lit "name"))) allMetrics ->
  Forall (fun m => is_Some (dict_get m (lit "name"))) usedMetrics ->
  for_each usedMetrics (used_body allMetrics) acc
  = Return (acc ++ (reconciled allMetrics <$> usedMetrics)).
Proof.
  intros Hall Hused. revert acc.
  induction Hused as [|m l [n Hn] _ IH]; intros acc.
  - cbn. by rewrite app_nil_r.
  - cbn [for_each]. rewrite (used_body_named _ _ _ n) by done.
    cbn [mbind outcome_bind]. rewrite IH. rewrite <- app_assoc.
    cbn [fmap list_fmap app]. unfold reconciled at 2. by rewrite Hn.
Qed.

Lemma reconciled_name (allMetrics : list (dict str)) (m : dict str) :
  dict_get (reconciled allMetrics m) (lit "name") = dict_get m (lit "name").
Proof.
  unfold reconciled. destruct (dict_get m (lit "name")) as [n|] eqn:Hn;
    [|done].
  destruct (first_named n allMetrics) as [a|] eqn:E; cbn [default].
  - by apply first_named_name in E.
  - rewrite dict_get_set_ne; [done | discriminate].
Qed.

Lemma dict_set_twice {V} (d : dict V) (k : str) (v : V) :
  dict_set (dict_set d k v) k v = dict_set d k v.
Proof.
  induction d as [|[k' v'] d IH]; cbn [dict_set].
  - by rewrite str_eqb_refl.
  - destruct (str_eqb k' k) eqn:E; cbn [dict_set]; rewrite E; [done|].
    by rewrite IH.
Qed.

Lemma reconciled_twice (allMetrics : list (dict str)) (m : dict str) :
  reconciled allMetrics (reconciled allMetrics m) = reconciled allMetrics m.
Proof.
  unfold reconciled at 1. rewrite reconciled_name.
  destruct (dict_get m (lit "name")) as [n|] eqn:Hn; [|done].
  unfold reconciled. rewrite Hn.
  destruct (first_named n allMetrics) as [a|] eqn:E; cbn [default]; [done|].
  apply dict_set_twice.
Qed.

(** X16. On its own result the reconciliation changes nothing: with the
    same [allMetrics], reconciling the entries it returned gives the same
    entries back. *)
Theorem reconcile_idempotent (allMetrics usedMetrics result : list (dict str)) :
  Forall (fun a => is_Some (dict_get a (lit "name"))) allMetrics ->
  Forall (fun m => is_Some (dict_get m (lit "name"))) usedMetrics ->
  reconcile allMetrics usedMetrics = Return result ->
  reconcile allMetrics result = Return result.
Proof.
  intros Hall Hused. unfold reconcile.
  rewrite reconcile_fmap by done. intros [= <-]. cbn [app].
  rewrite reconcile_fmap; [| done |].
  - cbn [app]. f_equal. rewrite <- list_fmap_compose.
    apply list_fmap_ext. intros i m _. apply reconciled_twice.
  - apply Forall_fmap. eapply Forall_impl; [exact Hused|].
    intros m Hm. cbn. by rewrite reconciled_name.
Qed.

Lemma reconcile_idempotent_witness :
  Forall (fun a => is_Some (dict_get a (lit "name"))) all_metrics
  /\ Forall (fun m => is_Some (dict_get m (lit "name"))) used_metrics
  /\ reconcile all_metrics used_metrics
     = Return [metric "m1" "[X]";
               dict_set (metric "m2" "[Y]") (lit "origin") (lit "perfspect")]
  /\ reconcile all_metrics
       [metric "m1" "[X]";
        dict_set (metric "m2" "[Y]") (lit "origin") (lit "perfspect")]
     = Return [metric "m1" "[X]";
               dict_set (metric "m2" "[Y]") (lit "origin") (lit "perfspect")].
Proof.
  assert (Hall : Forall (fun a => is_Some (dict_get a (lit "name")))
                   all_metrics) by (repeat constructor; by eexists).
  assert (Hused : Forall (fun m => is_Some (dict_get m (lit "name")))
                    used_metrics) by (repeat constructor; by eexists).
  split; [exact Hall|]. split; [exact Hused|]. split; [reflexivity|].
  apply (reconcile_idempotent all_metrics used_metrics _ Hall Hused).
  reflexivity.
Defined.

(** ** Reconciliation of files *)




(** ** The script *)






(** X20. With fewer than two arguments after the script name the script
    exits with status 1 and touches nothing; with two or more, and not
    exactly four, it only translates the first into the second and takes
    no notice of the others. *)
Theorem main_argument_count (fuel : nat) (argv : list str) (w : world) :
  length argv <> 5%nat ->
  main fuel argv w
  = match argv with
    | _ :: inFile :: outFile :: _ =>
        translate_perfmon_metrics_to_perfspect fuel inFile outFile w
    | _ => Raise (SystemExit 1)
    end.
Proof.
  intros Hlen. unfold main.
  destruct argv as [|a0 [|a1 [|a2 rest]]]; try done.
  cbn [length Nat.ltb Nat.leb].
  destruct (translate_perfmon_metrics_to_perfspect fuel a1 a2 w)
    as [w'| |]; cbn [mbind outcome_bind]; try done.
  destruct rest as [|a3 [|a4 [|a5 rest]]]; try done.
Qed.

Lemma main_argument_count_witness :
  length [lit "perfmon2perfspect.py"; lit "in.json"; lit "out.json";
          lit "used.json"] <> 5%nat
  /\ main 6 [lit "perfmon2perfspect.py"; lit "in.json"; lit "out.json";
             lit "used.json"] world_in
     = translate_perfmon_metrics_to_perfspect 6 (lit "in.json")
         (lit "out.json") world_in
  /\ main 6 [lit "perfmon2perfspect.py"; lit "in.json"] world_in
     = Raise (SystemExit 1).
Proof.
  assert (H : length [lit "perfmon2perfspect.py"; lit "in.json";
                      lit "out.json"; lit "used.json"] <> 5%nat)
    by (simpl; lia).
  split; [exact H|]. split.
  - apply (main_argument_count 6 _ world_in H).
  - apply (main_argument_count 6 [lit "perfmon2perfspect.py"; lit "in.json"]
             world_in).
    simpl. lia.
Defined.

End Perfmon2PerfspectMore.
